(** * Chat Group Summarizer: date-bounded pagination, retry and metrics

    A shallow embedding of the algorithmic core of the repository:

    - [enhanced-fetch-messages.js]: [fetchChatMessagesEnhanced],
      [fetchChatMessagesSimple], [fetchChatMessagesSmart];
    - [index.js]: the retry loop of [summarizeConversations] and
      [getPersonName];
    - [diagnostics.js]: [startTimer], [recordApiCall], [recordRequest],
      [checkEnvironment], [maskSensitive], [getHealthStatus];
    - [config-validator.js]: [validateEnvironment], [validateSpecificConfigs],
      [maskSensitiveValue], [validateAndThrow], [healthCheck];
    - [logger.js]: [shouldLog] and [cleanupOldLogs].

    Conventions of the embedding.

    - A JavaScript [Date] is its time value in milliseconds, [None] standing
      for an Invalid Date (time value NaN).  Every comparison with NaN is
      false and every subtraction with NaN is NaN.
    - The remote services ([platform.get], [model.generateContent]) are
      arbitrary state machines over an abstract world; the functions thread
      that world explicitly and keep a log of the calls they make.
    - A [throw] is the left injection of a sum, a [return] the right one.
    - [logDebug], the timers and the metrics updates inside the fetchers only
      observe the computation and are left out of the fetchers; the timer and
      the metrics table are embedded on their own in [Module Diagnostics].
      One debug message of the paginated fetcher is kept for what it does to
      the control flow: it renders the window with [toISOString()], which
      throws for an Invalid Date.
    - A plain object used as a table is the finite map of its own
      properties, read through [Object.prototype]. *)

From stdpp Require Import base list strings gmap pretty sorting.
From Stdlib Require Import ZArith.

Local Open Scope Z_scope.

(** ** Dates *)

Module JsDate.

Definition Date : Type := option Z.

(** [a <= b] on two Date objects. *)
Definition le (a b : Date) : bool :=
  match a, b with
  | Some x, Some y => x <=? y
  | _, _ => false
  end.

(** [a >= b]. *)
Definition ge (a b : Date) : bool := le b a.

(** [a < b]. *)
Definition lt (a b : Date) : bool :=
  match a, b with
  | Some x, Some y => x <? y
  | _, _ => false
  end.

(** [a - b], a number that may be NaN. *)
Definition sub (a b : Date) : option Z :=
  match a, b with
  | Some x, Some y => Some (x - y)
  | _, _ => None
  end.

(** Whether [a.toISOString()] returns: on an Invalid Date it throws a
    RangeError. *)
Definition valid (a : Date) : bool :=
  match a with
  | Some _ => true
  | None => false
  end.

End JsDate.

Abbreviation Date := JsDate.Date.

(** ** Data exchanged with the messaging API *)

(** A post.  [creationTime] is the instant [new Date(record.creationTime)]
    denotes. *)
Record Message : Type := mkMessage {
  id : string;
  creatorId : string;
  creationTime : Date;
  text : option string
}.

(** The body of a page: [json.records] and [json.navigation?.nextPageToken],
    either of which may be missing. *)
Record PageJson : Type := mkPageJson {
  records : option (list Message);
  nextPageToken : option string
}.

(** What a failed call throws: [error.message], [error.status] and
    [error.response.status] (absent when [error.response] is). *)
Record JsError : Type := mkJsError {
  message : string;
  status : option Z;
  response_status : option Z
}.

(** [new APIError(message, status, service)] of error-handler.js. *)
Record APIError : Type := mkAPIError {
  api_message : string;
  api_status : option Z;
  api_service : string
}.

(** What a fetcher throws: an [APIError] it builds itself, or the RangeError
    of [toISOString()] on an Invalid Date. *)
Inductive Thrown : Type :=
  | ThrownAPIError (error : APIError)
  | ThrownRangeError.

(** A response; [resp.json()] may itself throw. *)
Record Response : Type := mkResponse {
  json : JsError + PageJson
}.

(** The query string [{ qs: { recordCount, pageToken } }]. *)
Record Query : Type := mkQuery {
  recordCount : Z;
  pageToken : option string
}.

(** One call of [platform.get] with what it produced. *)
Record Call : Type := mkCall {
  call_endpoint : string;
  call_qs : Query;
  call_outcome : JsError + Response
}.

(** The payload of the [logger.warn] of the page limit. *)
Record PageLimitWarning : Type := mkPageLimitWarning {
  warn_chatId : string;
  warn_pagesProcessed : nat;
  warn_maxPages : nat;
  warn_messagesFound : nat
}.

Definition teamsEndpoint (chatId : string) : string :=
  "/restapi/v1.0/glip/teams/" +:+ chatId +:+ "/posts".

Definition chatsEndpoint (chatId : string) : string :=
  "/restapi/v1.0/glip/chats/" +:+ chatId +:+ "/posts".

Definition maxPages : nat := 20.
Definition recordsPerPage : Z := 250.

(** [messageTime >= dateFrom && messageTime <= dateTo]. *)
Definition inRange (dateFrom dateTo : Date) (record : Message) : bool :=
  JsDate.ge (creationTime record) dateFrom && JsDate.le (creationTime record) dateTo.

(** [messageTime < dateFrom]. *)
Definition olderThanRange (dateFrom : Date) (record : Message) : bool :=
  JsDate.lt (creationTime record) dateFrom.

(** The body of [for (const record of pageRecords)]: the pair is
    [(allMessages, foundOlderThanRange)]. *)
Definition classifyRecord (dateFrom dateTo : Date)
    (acc : list Message * bool) (record : Message) : list Message * bool :=
  if inRange dateFrom dateTo record then (acc.1 ++ [record], acc.2)
  else if olderThanRange dateFrom record then (acc.1, true)
  else acc.

Definition classifyPage (dateFrom dateTo : Date)
    (acc : list Message * bool) (pageRecords : list Message) : list Message * bool :=
  foldl (classifyRecord dateFrom dateTo) acc pageRecords.

(** [x || null] on a string that may be missing: the empty string is falsy. *)
Definition truthyToken (tok : option string) : option string :=
  match tok with
  | Some s => if decide (s = EmptyString) then None else Some s
  | None => None
  end.

(** ** Sorting

    [allMessages.sort((a, b) => new Date(a.creationTime) - new Date(b.creationTime))].
    [Array.prototype.sort] is stable; a comparator result of NaN counts as 0. *)

Definition compareCreationTime (a b : Message) : option Z :=
  JsDate.sub (creationTime a) (creationTime b).

(** [a] does not have to come after [b]: the comparator is not positive. *)
Definition notAfter (a b : Message) : bool :=
  match compareCreationTime a b with
  | Some d => d <=? 0
  | None => true
  end.

Fixpoint insertMessage (x : Message) (l : list Message) : list Message :=
  match l with
  | [] => [x]
  | y :: l' => if notAfter x y then x :: y :: l' else y :: insertMessage x l'
  end.

Fixpoint sortMessages (l : list Message) : list Message :=
  match l with
  | [] => []
  | x :: l' => insertMessage x (sortMessages l')
  end.

(** ** The fetchers *)

Section Fetch.

Context {World : Type}.

(** [platform.get(endpoint, { qs })] on the current state of the service. *)
Variable platform_get : string -> Query -> World -> (JsError + Response) * World.

(** The service together with what the fetcher did to it. *)
Record Env : Type := mkEnv {
  world : World;
  calls : list Call;
  warnings : list PageLimitWarning
}.

Definition get (endpoint : string) (qs : Query) (e : Env)
    : (JsError + Response) * Env :=
  let '(out, w) := platform_get endpoint qs (world e) in
  (out, {| world := w;
           calls := calls e ++ [mkCall endpoint qs out];
           warnings := warnings e |}).

Definition warn (w : PageLimitWarning) (e : Env) : Env :=
  {| world := world e; calls := calls e; warnings := warnings e ++ [w] |}.

(** The endpoint discovery both fetchers start with: one probe of the
    'teams' endpoint with [recordCount: 1]. *)
Definition discoverEndpoint (chatId : string) (e : Env) : (APIError + string) * Env :=
  let endpoint := teamsEndpoint chatId in
  match get endpoint {| recordCount := 1; pageToken := None |} e with
  | (inr _, e') => (inr endpoint, e')
  | (inl error, e') =>
      if decide (response_status error = Some 404)
      then (inr (chatsEndpoint chatId), e')
      else (inl (mkAPIError ("Failed to determine endpoint for chat " +:+ chatId)
                            (status error) "RingCentral"), e')
  end.

Definition pageError (pagesProcessed : nat) (endpoint : string) (error : JsError)
    : APIError :=
  mkAPIError ("Failed to fetch page " +:+ pretty (S pagesProcessed)
                +:+ " from " +:+ endpoint)
             (status error) "RingCentral".

(** The [while (pagesProcessed < maxPages && !foundOlderThanRange)] loop.
    [budget] is [maxPages - pagesProcessed], so the first test of the loop
    is [budget <> 0].  The loop yields [(pagesProcessed, allMessages)]. *)
Fixpoint paginate (budget : nat) (endpoint : string) (dateFrom dateTo : Date)
    (pageToken : option string) (pagesProcessed : nat)
    (allMessages : list Message) (foundOlderThanRange : bool) (e : Env)
    : (APIError + nat * list Message) * Env :=
  match budget with
  | O => (inr (pagesProcessed, allMessages), e)
  | S budget' =>
      if foundOlderThanRange then (inr (pagesProcessed, allMessages), e)
      else
        match get endpoint {| recordCount := recordsPerPage;
                              pageToken := pageToken |} e with
        | (inl error, e') => (inl (pageError pagesProcessed endpoint error), e')
        | (inr resp, e') =>
            match json resp with
            | inl error => (inl (pageError pagesProcessed endpoint error), e')
            | inr body =>
                let pageRecords := default [] (records body) in
                if decide (length pageRecords = 0%nat)
                then (inr (pagesProcessed, allMessages), e')
                else
                  let '(allMessages', found') :=
                    classifyPage dateFrom dateTo
                      (allMessages, foundOlderThanRange) pageRecords in
                  let pageToken' := truthyToken (nextPageToken body) in
                  let pagesProcessed' := S pagesProcessed in
                  if found' then (inr (pagesProcessed', allMessages'), e')
                  else
                    match pageToken' with
                    | None => (inr (pagesProcessed', allMessages'), e')
                    | Some _ =>
                        paginate budget' endpoint dateFrom dateTo pageToken'
                          pagesProcessed' allMessages' found' e'
                    end
            end
        end
  end.

(** Between the endpoint discovery and the loop, the message
    [`Starting paginated fetch for date range: ${dateFrom.toISOString()} to
    ${dateTo.toISOString()}`] is built: for an Invalid Date that throws, after
    the probe and before any page request. *)
Definition fetchChatMessagesEnhanced (chatId : string) (dateFrom dateTo : Date)
    (e : Env) : (Thrown + list Message) * Env :=
  match discoverEndpoint chatId e with
  | (inl err, e1) => (inl (ThrownAPIError err), e1)
  | (inr endpoint, e1) =>
      if JsDate.valid dateFrom && JsDate.valid dateTo then
        match paginate maxPages endpoint dateFrom dateTo None 0 [] false e1 with
        | (inl err, e2) => (inl (ThrownAPIError err), e2)
        | (inr (pagesProcessed, allMessages), e2) =>
            let e3 :=
              if decide (maxPages <= pagesProcessed)%nat
              then warn (mkPageLimitWarning chatId pagesProcessed maxPages
                           (length allMessages)) e2
              else e2 in
            (inr (sortMessages allMessages), e3)
        end
      else (inl ThrownRangeError, e1)
  end.

Definition fetchChatMessagesSimple (chatId : string) (dateFrom dateTo : Date)
    (e : Env) : (Thrown + list Message) * Env :=
  match discoverEndpoint chatId e with
  | (inl err, e1) => (inl (ThrownAPIError err), e1)
  | (inr endpoint, e1) =>
      let simpleError (error : JsError) :=
        mkAPIError ("Failed to fetch messages from " +:+ endpoint)
                   (status error) "RingCentral" in
      match get endpoint {| recordCount := 250; pageToken := None |} e1 with
      | (inl error, e2) => (inl (ThrownAPIError (simpleError error)), e2)
      | (inr resp, e2) =>
          match json resp with
          | inl error => (inl (ThrownAPIError (simpleError error)), e2)
          | inr body =>
              let allRecords := default [] (records body) in
              (inr (reverse (filter (fun record => inRange dateFrom dateTo record = true)
                                    allRecords)), e2)
          end
      end
  end.

Definition msPerDay : Z := 1000 * 60 * 60 * 24.

(** [Math.ceil(a / b)] for a positive [b]. *)
Definition ceilDiv (a b : Z) : Z := - ((- a) / b).

(** [Math.ceil((now - dateFrom) / (1000 * 60 * 60 * 24))]; NaN when
    [dateFrom] is invalid.  The quotient is taken exactly: on the integer
    time values of a Date the rounding of the floating-point division
    cannot move a quotient across the integer 3 the result is compared
    with. *)
Definition daysDifference (now dateFrom : Date) : option Z :=
  match JsDate.sub now dateFrom with
  | Some d => Some (ceilDiv d msPerDay)
  | None => None
  end.

(** [daysDifference <= 3], false on NaN. *)
Definition isRecent (now dateFrom : Date) : bool :=
  match daysDifference now dateFrom with
  | Some d => d <=? 3
  | None => false
  end.

(** [now] is the reading of [new Date()] at the call. *)
Definition fetchChatMessagesSmart (now : Z) (chatId : string)
    (dateFrom dateTo : Date) (e : Env) : (Thrown + list Message) * Env :=
  if isRecent (Some now) dateFrom
  then fetchChatMessagesSimple chatId dateFrom dateTo e
  else fetchChatMessagesEnhanced chatId dateFrom dateTo e.

End Fetch.

Arguments Env : clear implicits.
Arguments mkEnv {World}.

(** The state a fetch starts in: nothing called, nothing logged. *)
Definition start {World : Type} (w : World) : Env World :=
  {| world := w; calls := []; warnings := [] |}.

(** ** The retry loop of [summarizeConversations] *)

(** [hay.includes(needle)]. *)
Fixpoint includes (needle hay : string) : bool :=
  String.prefix needle hay ||
  match hay with
  | EmptyString => false
  | String _ hay' => includes needle hay'
  end.

(** What the summarizer does that can be observed from outside, in order:
    a call of [model.generateContent], the progress event sent before a
    wait (with the retries left and the delay it announces, in ms), and the
    [setTimeout] wait itself. *)
Inductive Event : Type :=
  | Called (prompt : string) (outcome : JsError + string)
  | Notified (retriesLeft : nat) (delay : Z)
  | Waited (delay : Z).

Section Summarize.

Context {Service : Type}.

(** [model.generateContent(prompt)] followed by [result.response.text()]. *)
Variable generateContent : string -> Service -> (JsError + string) * Service.

Record Gen : Type := mkGen {
  service : Service;
  events : list Event
}.

Definition emit (ev : Event) (g : Gen) : Gen :=
  {| service := service g; events := events g ++ [ev] |}.

Definition attempt (prompt : string) (g : Gen) : (JsError + string) * Gen :=
  let '(out, s) := generateContent prompt (service g) in
  (out, {| service := s; events := events g ++ [Called prompt out] |}).

Definition overloaded : APIError :=
  mkAPIError "Gemini API is overloaded after multiple retries." (Some 503) "Gemini".

(** [while (retries > 0) { try { ... } catch (error) { ... } }].  A loop that
    ends without a [return] makes the function return [undefined], [None]
    here. *)
Fixpoint retryLoop (retries : nat) (delay : Z) (prompt : string) (g : Gen)
    : (APIError + option string) * Gen :=
  match retries with
  | O => (inr None, g)
  | S retries' =>
      match attempt prompt g with
      | (inr text, g1) => (inr (Some text), g1)
      | (inl error, g1) =>
          if includes "503" (message error) then
            match retries' with
            | S _ =>
                let g2 := emit (Waited delay) (emit (Notified retries' delay) g1) in
                retryLoop retries' (delay * 2) prompt g2
            | O => (inl overloaded, g1)
            end
          else
            (inl (mkAPIError ("Gemini API error: " +:+ message error)
                             (status error) "Gemini"), g1)
      end
  end.

(** The part of [summarizeConversations] after the prompt is built:
    [let retries = 3; let delay = 2000;] and the loop. *)
Definition summarizeConversations (prompt : string) (g : Gen)
    : (APIError + option string) * Gen :=
  retryLoop 3 2000 prompt g.

End Summarize.

Arguments Gen : clear implicits.
Arguments mkGen {Service}.

Definition fresh {Service : Type} (s : Service) : Gen Service :=
  {| service := s; events := [] |}.

(** The calls and the waits of a run, in order. *)
Definition callsOf (evs : list Event) : list (string * (JsError + string)) :=
  omap (fun ev => match ev with Called p o => Some (p, o) | _ => None end) evs.

Definition waitsOf (evs : list Event) : list Z :=
  omap (fun ev => match ev with Waited d => Some d | _ => None end) evs.

(** ** Plain objects used as tables

    [apiCallStats], [levels] and [personCache] are plain objects.  Reading
    [table[key]] finds the property [key] of the object itself or, when it
    has none, the member of that name it inherits from [Object.prototype].
    A table is embedded as the finite map of its own properties.  The
    inherited members are functions, and for ['__proto__'] the prototype
    object: all of them are truthy, and none is a number or a string. *)

Definition objectPrototypeNames : list string :=
  ["constructor"; "__defineGetter__"; "__defineSetter__"; "hasOwnProperty";
   "__lookupGetter__"; "__lookupSetter__"; "isPrototypeOf";
   "propertyIsEnumerable"; "toString"; "valueOf"; "__proto__"; "toLocaleString"].

(** [key] names a member of [Object.prototype]. *)
Definition inherited (key : string) : bool :=
  bool_decide (key ∈ objectPrototypeNames).

(** ** diagnostics.js *)

Module Diagnostics.

(** An entry of [apiCallStats].  [calls] and [errors] are counters;
    [totalTime] adds up the durations reported, which are taken as whole
    numbers of milliseconds. *)
Record ServiceStats : Type := mkStats {
  calls : Z;
  errors : Z;
  totalTime : Z
}.

(** The largest value a counter reaches: numbers are doubles, in which
    2^53 + 1 rounds back to 2^53. *)
Definition maxCounter : Z := 2 ^ 53.

(** [n++] on a counter. *)
Definition increment (n : Z) : Z := if n <? maxCounter then n + 1 else n.

Record DiagnosticsManager : Type := mkManager {
  startTime : Z;
  requestCount : Z;
  errorCount : Z;
  apiCallStats : gmap string ServiceStats
}.

Definition zeroStats : ServiceStats := {| calls := 0; errors := 0; totalTime := 0 |}.

(** [constructor()], with the reading of [Date.now()]. *)
Definition constructor (dateNow : Z) : DiagnosticsManager :=
  {| startTime := dateNow;
     requestCount := 0;
     errorCount := 0;
     apiCallStats := <["ringcentral" := zeroStats]> (<["gemini" := zeroStats]> ∅) |}.

Record TimerResult : Type := mkTimerResult {
  operation : string;
  duration : Z
}.

(** The object [startTimer] returns.  [end_] is its [end] closure, applied
    to the reading of [performance.now()] at the time it is called. *)
Record Timer : Type := mkTimer {
  timer_operation : string;
  timer_startTime : Z;
  end_ : Z -> TimerResult
}.

(** [startTimer(operation)], with the reading of [performance.now()].  [end]
    is an arrow function, so [this] in its body is the manager, whose
    [startTime] is set once by the constructor. *)
Definition startTimer (this : DiagnosticsManager) (operation : string) (perfNow : Z)
    : Timer :=
  {| timer_operation := operation;
     timer_startTime := perfNow;
     end_ := fun perfNow' =>
       let duration := perfNow' - startTime this in
       {| operation := operation; duration := duration |} |}.

(** The three updates of an entry in [recordApiCall]: [calls++],
    [totalTime += duration] and, when [error] is truthy, [errors++]. *)
Definition recorded {E : Type} (duration : Z) (error : option E) (s : ServiceStats)
    : ServiceStats :=
  {| calls := increment (calls s);
     errors := match error with Some _ => increment (errors s) | None => errors s end;
     totalTime := totalTime s + duration |}.

(** [recordApiCall(service, duration, error = null)]; [error] is tested for
    truthiness only.  [!this.apiCallStats[service]] holds when the table has
    no entry for [service] and inherits no member of that name: only then
    is a zeroed entry made.  For the name of an inherited member without an
    entry, the three updates that follow land on that member, not in the
    table, which stays as it is. *)
Definition recordApiCall {E : Type} (service : string) (duration : Z)
    (error : option E) (this : DiagnosticsManager) : DiagnosticsManager :=
  let stats0 :=
    match apiCallStats this !! service with
    | Some _ => apiCallStats this
    | None =>
        if inherited service then apiCallStats this
        else <[service := zeroStats]> (apiCallStats this)
    end in
  {| startTime := startTime this;
     requestCount := requestCount this;
     errorCount := errorCount this;
     apiCallStats := alter (recorded duration error) service stats0 |}.

(** [recordRequest(error = null)]. *)
Definition recordRequest {E : Type} (error : option E) (this : DiagnosticsManager)
    : DiagnosticsManager :=
  {| startTime := startTime this;
     requestCount := increment (requestCount this);
     errorCount := match error with
                   | Some _ => increment (errorCount this)
                   | None => errorCount this
                   end;
     apiCallStats := apiCallStats this |}.

(** A use of the metrics recorder. *)
Inductive Op : Type :=
  | RecordRequest (error : option JsError)
  | RecordApiCall (service : string) (duration : Z) (error : option JsError).

Definition step (this : DiagnosticsManager) (op : Op) : DiagnosticsManager :=
  match op with
  | RecordRequest error => recordRequest error this
  | RecordApiCall service duration error => recordApiCall service duration error this
  end.

Definition run (ops : list Op) (this : DiagnosticsManager) : DiagnosticsManager :=
  foldl step this ops.





End Diagnostics.

(** ** Vocabulary of the statements *)

(** A message whose timestamp lies in the window, both ends included. *)
Definition withinWindow (from to : Z) (m : Message) : Prop :=
  exists t, creationTime m = Some t /\ from <= t <= to.

(** [a] is not later than [b]. *)
Definition timeLe (a b : Message) : Prop :=
  JsDate.le (creationTime a) (creationTime b) = true.

(** The body a page request delivered, when both [platform.get] and
    [resp.json()] succeeded. *)
Definition callBody (c : Call) : option PageJson :=
  match call_outcome c with
  | inr resp => match json resp with inr body => Some body | inl _ => None end
  | inl _ => None
  end.

(** What a page request threw, from [platform.get] or from [resp.json()]. *)
Definition callFailure (c : Call) : option JsError :=
  match call_outcome c with
  | inr resp => match json resp with inr _ => None | inl error => Some error end
  | inl error => Some error
  end.

Definition bodyRecords (body : PageJson) : list Message :=
  default [] (records body).

Definition callRecords (c : Call) : list Message :=
  match callBody c with
  | Some body => bodyRecords body
  | None => []
  end.

(** A page after which the walk goes on: it has records, none of them older
    than the window, and a continuation token. *)
Definition pageContinues (dateFrom : Date) (body : PageJson) : Prop :=
  bodyRecords body <> [] /\
  Forall (fun m => olderThanRange dateFrom m = false) (bodyRecords body) /\
  truthyToken (nextPageToken body) <> None.

(** A page request after which the loop of the paginated fetcher iterates
    again. *)
Definition continuing (dateFrom : Date) (c : Call) : Prop :=
  exists body, callBody c = Some body /\ pageContinues dateFrom body.

(** A request made by the pagination loop on [endpoint]. *)
Definition pageRequest (endpoint : string) (c : Call) : Prop :=
  call_endpoint c = endpoint /\ recordCount (call_qs c) = recordsPerPage.

(** The records of the pages [cs] that lie in the window, in arrival order. *)
Definition collected (dateFrom dateTo : Date) (cs : list Call) : list Message :=
  filter (fun m => inRange dateFrom dateTo m = true) (concat (map callRecords cs)).

Section Served.

Context {World : Type}.
Variable platform_get : string -> Query -> World -> (JsError + Response) * World.

(** The bodies the service delivers to [n] successive page requests that
    follow its continuation tokens, if none of them fails. *)
Fixpoint servedPages (n : nat) (endpoint : string) (tok : option string) (w : World)
    : option (list PageJson) :=
  match n with
  | O => Some []
  | S n' =>
      match platform_get endpoint {| recordCount := recordsPerPage; pageToken := tok |} w with
      | (inr resp, w') =>
          match json resp with
          | inr body =>
              match servedPages n' endpoint (truthyToken (nextPageToken body)) w' with
              | Some bodies => Some (body :: bodies)
              | None => None
              end
          | inl _ => None
          end
      | (inl _, _) => None
      end
  end.

End Served.

Section Answers.

Context {Service : Type}.
Variable generateContent : string -> Service -> (JsError + string) * Service.

(** The service answers the next calls with the outcomes [outs], in order. *)
Fixpoint answers (outs : list (JsError + string)) (prompt : string) (s : Service)
    : Prop :=
  match outs with
  | [] => True
  | o :: outs' =>
      (generateContent prompt s).1 = o /\
      answers outs' prompt (generateContent prompt s).2
  end.

End Answers.

(** A failure that carries the transient-overload signal. *)
Definition transient (error : JsError) : Prop :=
  includes "503" (message error) = true.

(** The whole days that have elapsed from [from] to [now], as the
    specification words the quantity the strategy selector compares with 3:
    the number of complete 24-hour days in the interval. *)
Definition elapsedWholeDays (now from : Z) : Z := (now - from) / msPerDay.

(** The query of the endpoint probe. *)
Definition probeQuery : Query := {| recordCount := 1; pageToken := None |}.

(** The failure endpoint discovery throws for a probe that failed with
    [error], not a 404. *)
Definition resolutionFailure (chatId : string) (error : JsError) : APIError :=
  mkAPIError ("Failed to determine endpoint for chat " +:+ chatId)
             (status error) "RingCentral".

(** What endpoint discovery makes of the outcome of its probe. *)
Definition resolveProbe (chatId : string) (outcome : JsError + Response)
    : APIError + string :=
  match outcome with
  | inr _ => inr (teamsEndpoint chatId)
  | inl error =>
      if decide (response_status error = Some 404)
      then inr (chatsEndpoint chatId)
      else inl (resolutionFailure chatId error)
  end.

(** The warning logged when the loop has used up its pages. *)
Definition pageLimitWarnings (chatId : string) (pagesProcessed messagesFound : nat)
    : list PageLimitWarning :=
  if decide (maxPages <= pagesProcessed)%nat
  then [mkPageLimitWarning chatId pagesProcessed maxPages messagesFound]
  else [].

(** The waits of [n] consecutive retries that start from [delay]. *)
Fixpoint backoffs (delay : Z) (n : nat) : list Z :=
  match n with
  | O => []
  | S n' => delay :: backoffs (delay * 2) n'
  end.

(** ** Sample services *)

Module Sample.

(** A platform that plays a script: each call gets the next outcome,
    whatever is asked; past the end of the script it refuses. *)
Definition refused : JsError :=
  {| message := "ECONNREFUSED"; status := None; response_status := None |}.

Definition scripted (endpoint : string) (qs : Query)
    (w : list (JsError + Response)) : (JsError + Response) * list (JsError + Response) :=
  match w with
  | [] => (inl refused, [])
  | o :: w' => (o, w')
  end.

Definition post (name : string) (t : Z) : Message :=
  {| id := name; creatorId := "u1"; creationTime := Some t; text := Some name |}.

Definition page (recs : list Message) (tok : option string) : JsError + Response :=
  inr {| json := inr {| records := Some recs; nextPageToken := tok |} |}.

Definition ok : JsError + Response :=
  inr {| json := inr {| records := None; nextPageToken := None |} |}.

Definition notFound : JsError :=
  {| message := "Resource not found"; status := Some 404; response_status := Some 404 |}.

Definition serverError : JsError :=
  {| message := "Internal error"; status := Some 500; response_status := Some 500 |}.

(** A generative service that plays a script in the same way. *)
Definition scriptedModel (prompt : string) (s : list (JsError + string))
    : (JsError + string) * list (JsError + string) :=
  match s with
  | [] => (inl refused, [])
  | o :: s' => (o, s')
  end.

Definition busy : JsError :=
  {| message := "[503 Service Unavailable] The model is overloaded.";
     status := Some 503; response_status := None |}.

Definition day : Z := 86400000.

(** A feed of two pages, newest first, around the window [[10, 20]]. *)
Definition feed : list (JsError + Response) :=
  [ ok;
    page [post "c" 30; post "b" 15; post "a" 12] (Some "t1");
    page [post "z" 11; post "y" 5] (Some "t2");
    page [post "x" 4] None ].

(** The same feed behind a page that cannot be read. *)
Definition brokenFeed : list (JsError + Response) :=
  [ ok;
    page [post "c" 30; post "b" 15; post "a" 12] (Some "t1");
    inl serverError;
    page [post "x" 4] None ].

Definition chat : string := "7595909126".

(** The requests the paginated fetcher makes on these feeds. *)
Definition probeCall : Call :=
  mkCall (teamsEndpoint chat) probeQuery ok.

Definition firstCall : Call :=
  mkCall (teamsEndpoint chat) {| recordCount := 250; pageToken := None |}
         (page [post "c" 30; post "b" 15; post "a" 12] (Some "t1")).

Definition secondCall : Call :=
  mkCall (teamsEndpoint chat) {| recordCount := 250; pageToken := Some "t1" |}
         (page [post "z" 11; post "y" 5] (Some "t2")).

Definition failedCall : Call :=
  mkCall (teamsEndpoint chat) {| recordCount := 250; pageToken := Some "t1" |}
         (inl serverError).

Definition fullPage : PageJson :=
  {| records := Some [post "m" 50]; nextPageToken := Some "next" |}.

(** A feed of [n] pages that all lie in the window [[0, 100]]. *)
Definition longFeed (n : nat) : list (JsError + Response) :=
  ok :: replicate n (inr {| json := inr fullPage |}).

End Sample.

(** ** Further vocabulary for the fetchers *)

(** The page requests [cs] follow the cursor: the first carries [tok], and a
    request is followed by another one only when it delivered a page with a
    non-empty [nextPageToken], which is the token that next request
    carries. *)
Fixpoint followsTokens (tok : option string) (cs : list Call) : Prop :=
  match cs with
  | [] => True
  | c :: cs' =>
      pageToken (call_qs c) = tok /\
      (cs' = [] \/
       exists body next,
         callBody c = Some body /\
         nextPageToken body = Some next /\
         next <> EmptyString /\
         followsTokens (Some next) cs')
  end.

(** [a] is strictly newer than [b]. *)
Definition strictlyNewer (a b : Message) : Prop :=
  JsDate.lt (creationTime b) (creationTime a) = true.

(** [a] is not older than [b]. *)
Definition notOlder (a b : Message) : Prop :=
  JsDate.le (creationTime b) (creationTime a) = true.

(** ** Tallies of a sequence of metrics operations *)

Module Tally.

Import Diagnostics.

Definition isRequest (op : Op) : bool :=
  match op with RecordRequest _ => true | _ => false end.

Definition isFailedRequest (op : Op) : bool :=
  match op with RecordRequest (Some _) => true | _ => false end.

Definition isCallTo (service : string) (op : Op) : bool :=
  match op with
  | RecordApiCall s _ _ => bool_decide (s = service)
  | _ => false
  end.

Definition isFailedCallTo (service : string) (op : Op) : bool :=
  match op with
  | RecordApiCall s _ (Some _) => bool_decide (s = service)
  | _ => false
  end.

(** How many operations of a sequence satisfy a test. *)
Definition count (test : Op -> bool) (ops : list Op) : Z :=
  Z.of_nat (length (filter (fun op => test op = true) ops)).

End Tally.

(** ** logger.js *)

(** [Array.prototype.sort] with a comparator that yields numbers: a stable
    sort; [x] goes before [y] when the comparator is not positive. *)
Fixpoint insertBy {A : Type} (cmp : A -> A -> Z) (x : A) (l : list A) : list A :=
  match l with
  | [] => [x]
  | y :: l' => if cmp x y <=? 0 then x :: y :: l' else y :: insertBy cmp x l'
  end.

Fixpoint sortBy {A : Type} (cmp : A -> A -> Z) (l : list A) : list A :=
  match l with
  | [] => []
  | x :: l' => insertBy cmp x (sortBy cmp l')
  end.

(** [s.endsWith(suffix)]. *)
Fixpoint endsWith (suffix s : string) : bool :=
  String.eqb s suffix ||
  match s with
  | EmptyString => false
  | String _ s' => endsWith suffix s'
  end.

Module Logger.

(** [this.levels]. *)
Definition levels : gmap string Z :=
  <["error" := 0]> (<["warn" := 1]> (<["info" := 2]> (<["debug" := 3]>
    (<["trace" := 4]> ∅)))).

(** What [this.levels[name]] evaluates to: the number of one of the five
    levels, a member inherited from [Object.prototype], or [undefined]. *)
Inductive LevelValue : Type :=
  | LevelNumber (n : Z)
  | LevelInherited (name : string)
  | LevelUndefined.

Definition levelValue (name : string) : LevelValue :=
  match levels !! name with
  | Some n => LevelNumber n
  | None => if inherited name then LevelInherited name else LevelUndefined
  end.

Section ShouldLog.

(** [a <= b] on two members of [Object.prototype], given by their names:
    both are converted to strings, whose text is up to the engine, and the
    strings are compared. *)
Variable memberLe : string -> string -> bool.

(** [shouldLog(level)]: [this.levels[level] <= this.levels[this.logLevel]].
    A comparison with [undefined] is false, and so is one of a number with
    an inherited member, which converts to NaN. *)
Definition shouldLog (logLevel level : string) : bool :=
  match levelValue level, levelValue logLevel with
  | LevelNumber a, LevelNumber b => a <=? b
  | LevelInherited a, LevelInherited b => memberLe a b
  | _, _ => false
  end.

End ShouldLog.

(** [file.startsWith('app-') && file.endsWith('.log')]. *)
Definition isLogFile (file : string) : bool :=
  String.prefix "app-" file && endsWith ".log" file.

(** [{ name: file, time: mtime }], once the [stat] of the file has
    resolved; [None] when it is rejected. *)
Definition stamp (mtime : string -> option Z) (file : string) : option (string * Z) :=
  (fun t => (file, t)) <$> mtime file.

(** [cleanupOldLogs()]: the names it unlinks.  [files] is what [readdir]
    delivers ([None] when it throws) and [mtime] what [stat] does; any
    rejection is caught and nothing is deleted. *)
Definition cleanupOldLogs (maxLogFiles : nat) (files : option (list string))
    (mtime : string -> option Z) : list string :=
  match files with
  | None => []
  | Some files =>
      let logFiles := filter (fun file => isLogFile file = true) files in
      match mapM (stamp mtime) logFiles with
      | None => []
      | Some stamped =>
          let sortedFiles := sortBy (fun a b => b.2 - a.2) stamped in
          if decide (maxLogFiles < length sortedFiles)%nat
          then (drop maxLogFiles sortedFiles).*1
          else []
      end
  end.

(** The log files [cleanupOldLogs] leaves in place. *)
Definition keptLogs (maxLogFiles : nat) (files : list string)
    (mtime : string -> option Z) : list string :=
  match mapM (stamp mtime) (filter (fun file => isLogFile file = true) files) with
  | None => filter (fun file => isLogFile file = true) files
  | Some stamped => (take maxLogFiles (sortBy (fun a b => b.2 - a.2) stamped)).*1
  end.

End Logger.

Module LoggerSample.

(** A log directory: three log files and a stranger. *)
Definition directory : list string :=
  ["app-2024-01-01.log"; "notes.txt"; "app-2024-01-03.log"; "app-2024-01-02.log"].

Definition mtimes (file : string) : option Z :=
  if decide (file = "app-2024-01-01.log") then Some 100
  else if decide (file = "app-2024-01-02.log") then Some 200
  else if decide (file = "app-2024-01-03.log") then Some 300
  else if decide (file = "notes.txt") then Some 50
  else None.

End LoggerSample.

(** ** Environment checks of diagnostics.js and config-validator.js *)

(** [process.env[name]] when it is truthy: set, and not the empty string. *)
Definition envVar (env : gmap string string) (name : string) : option string :=
  truthyToken (env !! name).

Definition requiredVars : list string :=
  ["RC_SERVER"; "RC_CLIENT_ID"; "RC_CLIENT_SECRET"; "RC_JWT"; "GEMINI_API_KEY"].

Definition optionalVars : list string := ["LOG_LEVEL"; "PORT"; "REPORTS_DIR"].

(** [sensitiveKeys.some(sensitive => key.includes(sensitive))]. *)
Definition someIncluded (sensitiveKeys : list string) (key : string) : bool :=
  existsb (fun sensitive => includes sensitive key) sensitiveKeys.

(** [value.substring(0, 8) + '***']. *)
Definition masked (value : string) : string := String.substring 0 8 value +:+ "***".

Module DiagnosticsEnv.

(** [maskSensitive(key, value)] of diagnostics.js. *)
Definition maskSensitive (key value : string) : string :=
  if someIncluded ["SECRET"; "JWT"; "KEY"] key then masked value else value.

Record EnvReport : Type := mkEnvReport {
  required : gmap string string;
  optional : gmap string string;
  missing : list string;
  present : list string
}.

(** The body of [requiredVars.forEach]. *)
Definition checkRequired (env : gmap string string) (report : EnvReport)
    (varName : string) : EnvReport :=
  match envVar env varName with
  | Some value =>
      {| required := <[varName := maskSensitive varName value]> (required report);
         optional := optional report;
         missing := missing report;
         present := present report ++ [varName] |}
  | None =>
      {| required := required report;
         optional := optional report;
         missing := missing report ++ [varName];
         present := present report |}
  end.

(** The body of [optionalVars.forEach]. *)
Definition checkOptional (env : gmap string string) (report : EnvReport)
    (varName : string) : EnvReport :=
  match envVar env varName with
  | Some value =>
      {| required := required report;
         optional := <[varName := value]> (optional report);
         missing := missing report;
         present := present report ++ [varName] |}
  | None => report
  end.

(** [checkEnvironment()]. *)
Definition checkEnvironment (env : gmap string string) : EnvReport :=
  foldl (checkOptional env)
        (foldl (checkRequired env)
               {| required := ∅; optional := ∅; missing := []; present := [] |}
               requiredVars)
        optionalVars.

End DiagnosticsEnv.

(** ** config-validator.js *)

(** [s.split(sep)] for a separator of one character. *)
Fixpoint split (sep : Ascii.ascii) (s : string) : list string :=
  match s with
  | EmptyString => [EmptyString]
  | String c s' =>
      if Ascii.eqb c sep then EmptyString :: split sep s'
      else match split sep s' with
           | part :: parts => String c part :: parts
           | [] => [String c EmptyString]
           end
  end.

(** The character [.]. *)
Definition dot : Ascii.ascii := Ascii.ascii_of_nat 46.

(** The double quote and the line feed, as strings. *)
Definition dq : string := String (Ascii.ascii_of_nat 34) EmptyString.
Definition nl : string := String (Ascii.ascii_of_nat 10) EmptyString.

Module ConfigValidator.

(** [maskSensitiveValue(key, value)]. *)
Definition maskSensitiveValue (key value : string) : string :=
  if someIncluded ["CLIENT_SECRET"; "JWT"; "API_KEY"] key then masked value else value.

Inductive ConfigValue : Type :=
  | CBool (b : bool)
  | CString (s : string).

Record Results : Type := mkResults {
  valid : bool;
  errors : list string;
  warnings : list string;
  config : gmap string ConfigValue
}.

(** The file system as the validator probes it: whether [access('.env')]
    succeeds, and for a directory the message of the error that [mkdir] or
    [access(dir, W_OK)] throws, [None] when both succeed. *)
Record FileSystem : Type := mkFileSystem {
  envFileExists : bool;
  dirError : string -> option string
}.

(** [results.errors.push(msg)] together with [results.valid = false]: the
    validator never does one without the other. *)
Definition fail (msg : string) (r : Results) : Results :=
  {| valid := false; errors := errors r ++ [msg];
     warnings := warnings r; config := config r |}.

Definition warn (msg : string) (r : Results) : Results :=
  {| valid := valid r; errors := errors r;
     warnings := warnings r ++ [msg]; config := config r |}.

Definition setConfig (key : string) (value : ConfigValue) (r : Results) : Results :=
  {| valid := valid r; errors := errors r;
     warnings := warnings r; config := <[key := value]> (config r) |}.

Definition checkEnvFile (fs : FileSystem) (r : Results) : Results :=
  if envFileExists fs then setConfig "envFileExists" (CBool true) r
  else setConfig "envFileExists" (CBool false)
         (warn "No .env file found. Using system environment variables." r).

Definition missingMessage (name : string) : string :=
  "Missing required environment variable: " +:+ name.

(** The body of the loop over [this.requiredEnvVars]. *)
Definition validateRequired (env : gmap string string) (r : Results)
    (name : string) : Results :=
  match envVar env name with
  | None => fail (missingMessage name) r
  | Some value => setConfig name (CString (maskSensitiveValue name value)) r
  end.

(** The body of the loop over [this.optionalEnvVars]. *)
Definition validateOptional (env : gmap string string) (r : Results)
    (name : string) : Results :=
  match envVar env name with
  | Some value => setConfig name (CString value) r
  | None => r
  end.

Definition validServers : list string :=
  ["https://platform.ringcentral.com"; "https://platform.devtest.ringcentral.com"].

Definition checkServer (env : gmap string string) (r : Results) : Results :=
  match envVar env "RC_SERVER" with
  | Some server =>
      if bool_decide (server ∈ validServers) then r
      else warn ("RC_SERVER " +:+ dq +:+ server +:+ dq
                   +:+ " is not a standard RingCentral server URL") r
  | None => r
  end.

Definition jwtMessage : string := "RC_JWT does not appear to be a valid JWT format".

Definition checkJwt (env : gmap string string) (r : Results) : Results :=
  match envVar env "RC_JWT" with
  | Some jwt =>
      if decide (length (split dot jwt) = 3%nat) then r else fail jwtMessage r
  | None => r
  end.

Definition reportsDirOf (env : gmap string string) : string :=
  default "./reports" (envVar env "REPORTS_DIR").

Definition reportsMessage (reportsDir msg : string) : string :=
  "Reports directory " +:+ dq +:+ reportsDir +:+ dq +:+ " is not writable: " +:+ msg.

Definition checkReportsDir (env : gmap string string) (fs : FileSystem)
    (r : Results) : Results :=
  let reportsDir := reportsDirOf env in
  match dirError fs reportsDir with
  | None =>
      setConfig "reportsDirWritable" (CBool true)
        (setConfig "reportsDir" (CString reportsDir) r)
  | Some msg => fail (reportsMessage reportsDir msg) r
  end.

Definition checkLogsDir (fs : FileSystem) (r : Results) : Results :=
  let logsDir := "./logs" in
  match dirError fs logsDir with
  | None =>
      setConfig "logsDirWritable" (CBool true)
        (setConfig "logsDir" (CString logsDir) r)
  | Some msg =>
      warn ("Logs directory " +:+ dq +:+ logsDir +:+ dq
              +:+ " is not writable: " +:+ msg) r
  end.

(** [validateSpecificConfigs(results)]. *)
Definition validateSpecificConfigs (env : gmap string string) (fs : FileSystem)
    (r : Results) : Results :=
  checkLogsDir fs (checkReportsDir env fs (checkJwt env (checkServer env r))).

(** [validateEnvironment()]. *)
Definition validateEnvironment (env : gmap string string) (fs : FileSystem)
    : Results :=
  let results := {| valid := true; errors := []; warnings := []; config := ∅ |} in
  validateSpecificConfigs env fs
    (foldl (validateOptional env)
       (foldl (validateRequired env) (checkEnvFile fs results) requiredVars)
       optionalVars).

(** [validateAndThrow()]: the left injection is the message of the
    [ConfigError] it throws. *)
Definition validateAndThrow (env : gmap string string) (fs : FileSystem)
    : string + Results :=
  let validation := validateEnvironment env fs in
  if valid validation then inr validation
  else inl ("Configuration validation failed:" +:+ nl
              +:+ String.concat nl (errors validation)).

(** The [status] of [healthCheck()]. *)
Definition healthCheck (env : gmap string string) (fs : FileSystem) : string :=
  if valid (validateEnvironment env fs) then "healthy" else "unhealthy".

(** The errors a configuration has: the required variables that are not
    set, a malformed token, a reports directory that cannot be written. *)
Definition expectedErrors (env : gmap string string) (fs : FileSystem)
    : list string :=
  map missingMessage (filter (fun name => envVar env name = None) requiredVars)
  ++ match envVar env "RC_JWT" with
     | Some jwt => if decide (length (split dot jwt) = 3%nat) then [] else [jwtMessage]
     | None => []
     end
  ++ match dirError fs (reportsDirOf env) with
     | Some msg => [reportsMessage (reportsDirOf env) msg]
     | None => []
     end.

End ConfigValidator.

Module ConfigSample.

(** A complete environment. *)
Definition env : gmap string string :=
  <["RC_SERVER" := "https://platform.ringcentral.com"]>
    (<["RC_CLIENT_ID" := "client-1"]>
       (<["RC_CLIENT_SECRET" := "s3cr3t-value-0123456789"]>
          (<["RC_JWT" := "header.payload.signature"]>
             (<["GEMINI_API_KEY" := "AIza-0123456789"]> ∅)))).

(** A file system without a .env file and without a writable logs
    directory. *)
Definition fs : ConfigValidator.FileSystem :=
  {| ConfigValidator.envFileExists := false;
     ConfigValidator.dirError := fun dir =>
       if decide (dir = "./logs") then Some "EACCES" else None |}.

End ConfigSample.

(** How often the character [c] occurs in [s]. *)
Fixpoint occurrences (c : Ascii.ascii) (s : string) : nat :=
  match s with
  | EmptyString => 0
  | String d s' => (if Ascii.eqb d c then 1 else 0) + occurrences c s'
  end.

(** A configuration the validator accepts: every required variable is set,
    the token has exactly two dots, the reports directory can be written. *)
Definition acceptable (env : gmap string string) (fs : ConfigValidator.FileSystem)
    : Prop :=
  Forall (fun name => is_Some (envVar env name)) requiredVars /\
  (forall jwt, envVar env "RC_JWT" = Some jwt -> occurrences dot jwt = 2%nat) /\
  ConfigValidator.dirError fs (ConfigValidator.reportsDirOf env) = None.

(** ** [getPersonName] of index.js *)

Module Person.

(** The body of a person: [json.firstName] and [json.lastName] as the
    template literal renders them. *)
Record PersonJson : Type := mkPersonJson {
  firstName : string;
  lastName : string
}.

Record PersonResponse : Type := mkPersonResponse {
  person_json : JsError + PersonJson
}.

Definition personUrl (personId : string) : string :=
  "/restapi/v1.0/glip/persons/" +:+ personId.

Definition fallbackName (personId : string) : string :=
  "User (" +:+ personId +:+ ")".

(** What [getPersonName] returns: a name, or the member of
    [Object.prototype] that [personCache] inherits under the name [key]. *)
Inductive Found : Type :=
  | Name (name : string)
  | Member (key : string).

Section GetPersonName.

Context {World : Type}.

(** [platform.get(url)] for a person. *)
Variable person_get : string -> World -> (JsError + PersonResponse) * World.

(** The service, the module-level [personCache] and the requests made. *)
Record State : Type := mkState {
  world : World;
  personCache : gmap string string;
  requests : list string
}.

(** What [personCache[personId]] evaluates to: the cached name, the member
    of that name inherited from [Object.prototype], or [undefined]. *)
Definition cached (personId : string) (st : State) : option Found :=
  match personCache st !! personId with
  | Some name => Some (Name name)
  | None => if inherited personId then Some (Member personId) else None
  end.

(** [personCache[personId]] when it is truthy: an empty name is falsy, an
    inherited member is truthy. *)
Definition hit (personId : string) (st : State) : option Found :=
  match cached personId st with
  | Some (Name name) => if decide (name = EmptyString) then None else Some (Name name)
  | Some (Member key) => Some (Member key)
  | None => None
  end.

(** [if (personCache[personId]) return personCache[personId]], and
    otherwise the request. *)
Definition getPersonName (personId : string) (st : State) : Found * State :=
  match hit personId st with
  | Some found => (found, st)
  | None =>
      let '(out, w) := person_get (personUrl personId) (world st) in
      let st1 := {| world := w; personCache := personCache st;
                    requests := requests st ++ [personUrl personId] |} in
      match out with
      | inr resp =>
          match person_json resp with
          | inr json =>
              let name := firstName json +:+ " " +:+ lastName json in
              (Name name, {| world := w;
                             personCache := <[personId := name]> (personCache st);
                             requests := requests st ++ [personUrl personId] |})
          | inl _ => (Name (fallbackName personId), st1)
          end
      | inl _ => (Name (fallbackName personId), st1)
      end
  end.

(** Lookups made one after the other. *)
Definition lookups (personIds : list string) (st : State) : State :=
  foldl (fun st personId => (getPersonName personId st).2) st personIds.

End GetPersonName.

Arguments State : clear implicits.

(** A directory of persons that knows one person and then goes away. *)
Definition sampleGet (url : string) (w : nat) : (JsError + PersonResponse) * nat :=
  match w with
  | O => (inr {| person_json := inr {| firstName := "Ada"; lastName := "Lovelace" |} |},
          1%nat)
  | S _ => (inl {| message := "ECONNRESET"; status := None; response_status := None |}, w)
  end.

End Person.

(** ** [getHealthStatus] of diagnostics.js *)

Module Health.

(** An entry of [checkFileSystem()]: [permissions] is absent for a
    directory that does not exist. *)
Record DirCheck : Type := mkDirCheck {
  path : string;
  exists_ : bool;
  writable : option bool
}.

Record HealthStatus : Type := mkHealthStatus {
  status : string;
  issues : list string;
  warnings : list string
}.

Section GetHealthStatus.

(** JavaScript numbers that come out of floating-point arithmetic, and
    [x > n] on them. *)
Context {Number : Type}.
Variable gt : Number -> Z -> bool.

(** [['./reports', './logs'].includes(dir.path) &&
     (!dir.exists || !dir.permissions?.writable)]. *)
Definition critical (dir : DirCheck) : bool :=
  bool_decide (path dir ∈ ["./reports"; "./logs"]) &&
  (negb (exists_ dir) || negb (default false (writable dir))).

(** [getHealthStatus(system, app, filesystem, environment)]:
    [memoryUsagePercent] and [errorRate] are the two numbers it computes
    first, [errorRateText] is [app.errorRate]. *)
Definition getHealthStatus (memoryUsagePercent errorRate : Number)
    (errorRateText : string) (filesystem : list DirCheck)
    (environment : DiagnosticsEnv.EnvReport) : HealthStatus :=
  let memoryIssues :=
    if gt memoryUsagePercent 90 then ["High memory usage detected"] else [] in
  let memoryWarnings :=
    if gt memoryUsagePercent 90 then []
    else if gt memoryUsagePercent 75 then ["Elevated memory usage"] else [] in
  let rateIssues :=
    if gt errorRate 10 then ["High error rate: " +:+ errorRateText] else [] in
  let rateWarnings :=
    if gt errorRate 10 then []
    else if gt errorRate 5 then ["Elevated error rate: " +:+ errorRateText] else [] in
  let envIssues :=
    if decide (0 < length (DiagnosticsEnv.missing environment))%nat
    then ["Missing required environment variables: "
            +:+ String.concat ", " (DiagnosticsEnv.missing environment)]
    else [] in
  let criticalDirs := filter (fun dir => critical dir = true) filesystem in
  let dirIssues :=
    if decide (0 < length criticalDirs)%nat
    then ["Critical directories not accessible or writable"] else [] in
  let issues := memoryIssues ++ rateIssues ++ envIssues ++ dirIssues in
  let warnings := memoryWarnings ++ rateWarnings in
  {| status := if decide (0 < length issues)%nat then "unhealthy"
               else if decide (0 < length warnings)%nat then "warning"
               else "healthy";
     issues := issues;
     warnings := warnings |}.

End GetHealthStatus.

End Health.

(** * Properties *)

(** ** Dates and sorting *)

Lemma le_spec (a b : Date) :
  JsDate.le a b = true <-> exists x y, a = Some x /\ b = Some y /\ x <= y.
Proof.
  destruct a as [x|], b as [y|]; simpl; split;
    try (intros (x' & y' & ? & ? & ?); simplify_eq); try discriminate.
  - intros H%Z.leb_le. by exists x, y.
  - by apply Z.leb_le.
Qed.

Lemma lt_spec (a b : Date) :
  JsDate.lt a b = true <-> exists x y, a = Some x /\ b = Some y /\ x < y.
Proof.
  destruct a as [x|], b as [y|]; simpl; split;
    try (intros (x' & y' & ? & ? & ?); simplify_eq); try discriminate.
  - intros H%Z.ltb_lt. by exists x, y.
  - by apply Z.ltb_lt.
Qed.

Lemma inRange_spec (from to : Z) (m : Message) :
  inRange (Some from) (Some to) m = true <-> withinWindow from to m.
Proof.
  unfold inRange, withinWindow, JsDate.ge. rewrite andb_true_iff, !le_spec. split.
  - intros [(x & y & ? & ? & ?) (x' & y' & ? & ? & ?)]. simplify_eq.
    exists y. split; [done | lia].
  - intros (t & Ht & ? & ?). split; [exists from, t | exists t, to]; auto.
Qed.

Lemma inRange_dated (dateFrom dateTo : Date) (m : Message) :
  inRange dateFrom dateTo m = true -> is_Some (creationTime m).
Proof.
  unfold inRange. rewrite andb_true_iff, !le_spec.
  intros [_ (x & y & -> & _)]. by eexists.
Qed.

Lemma older_not_inRange (dateFrom dateTo : Date) (m : Message) :
  olderThanRange dateFrom m = true -> inRange dateFrom dateTo m = false.
Proof.
  unfold olderThanRange, inRange, JsDate.ge. rewrite lt_spec.
  intros (x & y & -> & -> & Hlt). simpl.
  apply andb_false_iff. left. apply Z.leb_gt. lia.
Qed.

Lemma timeLe_trans (a b c : Message) : timeLe a b -> timeLe b c -> timeLe a c.
Proof.
  unfold timeLe. rewrite !le_spec.
  intros (x & y & Ha & Hb & ?) (y' & z & Hb' & Hc & ?).
  rewrite Hb in Hb'. simplify_eq. exists x, z. repeat split; auto. lia.
Qed.

Lemma notAfter_true (x y : Message) :
  is_Some (creationTime x) -> is_Some (creationTime y) ->
  notAfter x y = true -> timeLe x y.
Proof.
  unfold notAfter, compareCreationTime, timeLe.
  intros [s Hs] [t Ht]. rewrite Hs, Ht. simpl.
  intros H%Z.leb_le. apply Z.leb_le. lia.
Qed.

Lemma notAfter_false (x y : Message) :
  is_Some (creationTime x) -> is_Some (creationTime y) ->
  notAfter x y = false -> timeLe y x.
Proof.
  unfold notAfter, compareCreationTime, timeLe.
  intros [s Hs] [t Ht]. rewrite Hs, Ht. simpl.
  intros H%Z.leb_gt. apply Z.leb_le. lia.
Qed.

Lemma insertMessage_Permutation (x : Message) (l : list Message) :
  insertMessage x l ≡ₚ x :: l.
Proof.
  induction l as [|y l IH]; simpl; [done|].
  destruct (notAfter x y); [done|].
  rewrite IH. apply Permutation_swap.
Qed.

Lemma sortMessages_Permutation (l : list Message) : sortMessages l ≡ₚ l.
Proof.
  induction l as [|x l IH]; simpl; [done|].
  by rewrite insertMessage_Permutation, IH.
Qed.

Lemma insertMessage_sorted (x : Message) (l : list Message) :
  is_Some (creationTime x) ->
  Forall (fun m => is_Some (creationTime m)) l ->
  StronglySorted timeLe l ->
  StronglySorted timeLe (insertMessage x l).
Proof.
  intros Hx Hl Hs. induction Hs as [|y l Hs IH Hy]; simpl.
  - repeat constructor.
  - apply Forall_cons in Hl as [Hdy Hl].
    destruct (notAfter x y) eqn:Hxy.
    + apply notAfter_true in Hxy; [|done..].
      constructor; [by constructor|].
      constructor; [done|].
      eapply Forall_impl; [exact Hy|]. intros z Hz. by eapply timeLe_trans.
    + apply notAfter_false in Hxy; [|done..].
      constructor; [by apply IH|].
      rewrite insertMessage_Permutation. by constructor.
Qed.

Lemma sortMessages_sorted (l : list Message) :
  Forall (fun m => is_Some (creationTime m)) l ->
  StronglySorted timeLe (sortMessages l).
Proof.
  induction 1 as [|x l Hx Hl IH]; simpl; [constructor|].
  apply insertMessage_sorted; [done| |done].
  by rewrite sortMessages_Permutation.
Qed.

(** Filtering keeps a list sorted; reversing it turns the order around. *)
Lemma StronglySorted_filter {A : Type} (R : relation A) (P : A -> Prop)
    `{forall x, Decision (P x)} (l : list A) :
  StronglySorted R l -> StronglySorted R (filter P l).
Proof.
  induction 1 as [|x l Hs IH Hx]; [constructor|].
  rewrite filter_cons. destruct (decide (P x)); [|done].
  constructor; [done|].
  apply Forall_forall. intros y [_ Hy]%list_elem_of_filter.
  by eapply Forall_forall in Hx.
Qed.

Lemma StronglySorted_reverse_flip {A : Type} (R : relation A) (l : list A) :
  StronglySorted R l -> StronglySorted (flip R) (reverse l).
Proof.
  induction 1 as [|x l Hs IH Hx]; [constructor|].
  rewrite reverse_cons. apply StronglySorted_app. split; [|split].
  - intros y1 y2 Hy1 Hy2. rewrite elem_of_reverse in Hy1.
    rewrite list_elem_of_singleton in Hy2. subst y2.
    unfold flip. by eapply Forall_forall in Hx.
  - done.
  - repeat constructor.
Qed.

(** ** Classification of a page *)

Lemma classifyPage_fst (dateFrom dateTo : Date) (recs acc : list Message) (f : bool) :
  (classifyPage dateFrom dateTo (acc, f) recs).1
  = acc ++ filter (fun m => inRange dateFrom dateTo m = true) recs.
Proof.
  unfold classifyPage. revert acc f.
  induction recs as [|m recs IH]; intros acc f; simpl.
  - by rewrite app_nil_r.
  - unfold classifyRecord at 2. simpl. rewrite filter_cons.
    destruct (inRange dateFrom dateTo m) eqn:Hin.
    + rewrite IH. rewrite decide_True by done. by rewrite <- app_assoc.
    + rewrite decide_False by done.
      destruct (olderThanRange dateFrom m); apply IH.
Qed.

Lemma classifyPage_snd (dateFrom dateTo : Date) (recs acc : list Message) (f : bool) :
  (classifyPage dateFrom dateTo (acc, f) recs).2
  = f || existsb (olderThanRange dateFrom) recs.
Proof.
  unfold classifyPage. revert acc f.
  induction recs as [|m recs IH]; intros acc f; simpl.
  - by rewrite orb_false_r.
  - unfold classifyRecord at 2. simpl.
    destruct (olderThanRange dateFrom m) eqn:Hold.
    + rewrite (older_not_inRange _ dateTo _ Hold). rewrite IH.
      by rewrite orb_true_r.
    + destruct (inRange dateFrom dateTo m); by rewrite IH.
Qed.

Lemma existsb_older (dateFrom : Date) (recs : list Message) :
  existsb (olderThanRange dateFrom) recs = true
  <-> exists m, m ∈ recs /\ olderThanRange dateFrom m = true.
Proof.
  rewrite existsb_exists. setoid_rewrite list_elem_of_In. done.
Qed.

Lemma existsb_older_false (dateFrom : Date) (recs : list Message) :
  existsb (olderThanRange dateFrom) recs = false
  <-> Forall (fun m => olderThanRange dateFrom m = false) recs.
Proof.
  induction recs as [|m recs IH]; simpl.
  - split; [constructor | done].
  - rewrite orb_false_iff, Forall_cons. by rewrite IH.
Qed.

(** ** The pagination loop *)

Lemma app_cons_eq_snoc {A : Type} (l1 l2 l3 : list A) (x y : A) :
  l1 ++ x :: l2 = l3 ++ [y] -> (l2 = [] /\ l1 = l3 /\ x = y) \/ x ∈ l3.
Proof.
  destruct l2 as [|z l2 _] using rev_ind.
  - intros [-> ->]%app_inj_tail. by left.
  - intros H. right.
    change (l1 ++ x :: l2 ++ [z]) with (l1 ++ (x :: l2) ++ [z]) in H.
    rewrite app_assoc in H. apply app_inj_tail in H as [<- _].
    set_solver.
Qed.

Lemma collected_app (dateFrom dateTo : Date) (cs1 cs2 : list Call) :
  collected dateFrom dateTo (cs1 ++ cs2)
  = collected dateFrom dateTo cs1 ++ collected dateFrom dateTo cs2.
Proof. unfold collected. by rewrite map_app, concat_app, filter_app. Qed.

Lemma collected_inRange (dateFrom dateTo : Date) (cs : list Call) :
  Forall (fun m => inRange dateFrom dateTo m = true) (collected dateFrom dateTo cs).
Proof.
  unfold collected. apply Forall_forall. intros m Hm.
  by apply list_elem_of_filter in Hm as [? _].
Qed.

Lemma continuing_no_failure (dateFrom : Date) (c : Call) :
  continuing dateFrom c -> callFailure c = None.
Proof.
  intros (body & Hb & _). unfold callBody in Hb. unfold callFailure.
  destruct (call_outcome c) as [|resp]; [done|]. by destruct (json resp).
Qed.

Lemma continuing_no_older (dateFrom : Date) (c : Call) (m : Message) :
  continuing dateFrom c -> m ∈ callRecords c -> olderThanRange dateFrom m = false.
Proof.
  intros (body & Hb & _ & Hall & _) Hm. unfold callRecords in Hm. rewrite Hb in Hm.
  by eapply Forall_forall in Hall.
Qed.

Section FetchFacts.

Context {World : Type}.
Variable platform_get : string -> Query -> World -> (JsError + Response) * World.

Lemma get_spec (endpoint : string) (qs : Query) (e e' : Env World)
    (out : JsError + Response) :
  get platform_get endpoint qs e = (out, e') ->
  calls e' = calls e ++ [mkCall endpoint qs out] /\
  warnings e' = warnings e /\
  platform_get endpoint qs (world e) = (out, world e').
Proof.
  unfold get. destruct (platform_get endpoint qs (world e)) as [o w].
  by intros [= <- <-].
Qed.

(** The shape of every run of the loop: page requests after which the loop
    went on, then at most one page request on which it stopped. *)
Lemma paginate_trace (budget : nat) (endpoint : string) (dateFrom dateTo : Date)
    (tok : option string) (n : nat) (acc : list Message) (e e' : Env World)
    (r : APIError + nat * list Message) :
  paginate platform_get budget endpoint dateFrom dateTo tok n acc false e = (r, e') ->
  exists pre last,
    calls e' = calls e ++ pre ++ last /\
    warnings e' = warnings e /\
    Forall (pageRequest endpoint) (pre ++ last) /\
    Forall (continuing dateFrom) pre /\
    ((last = [] /\ length pre = budget /\
      r = inr ((n + length pre)%nat, acc ++ collected dateFrom dateTo pre))
     \/ exists c, last = [c] /\ (length pre < budget)%nat /\
        ((exists error, callFailure c = Some error /\
            r = inl (pageError (n + length pre) endpoint error))
         \/ (callFailure c = None /\ callRecords c = [] /\
             r = inr ((n + length pre)%nat, acc ++ collected dateFrom dateTo pre))
         \/ (callFailure c = None /\ callRecords c <> [] /\
             r = inr (S (n + length pre),
                      acc ++ collected dateFrom dateTo (pre ++ [c]))))).
Proof.
  revert tok n acc e.
  induction budget as [|budget IH]; intros tok n acc e; simpl.
  - intros [= <- <-]. exists [], []. simpl. rewrite !app_nil_r, Nat.add_0_r.
    repeat split; auto.
  - destruct (get platform_get endpoint _ e) as [out e1] eqn:Hget.
    apply get_spec in Hget as (Hcalls & Hwarn & _).
    set (c := mkCall endpoint {| recordCount := recordsPerPage; pageToken := tok |} out)
      in Hcalls.
    assert (Hreq : pageRequest endpoint c) by done.
    assert (Hstop : forall r0,
      (exists error, callFailure c = Some error /\
          r0 = inl (pageError (n + 0) endpoint error))
      \/ (callFailure c = None /\ callRecords c = [] /\
          r0 = inr ((n + 0)%nat, acc ++ collected dateFrom dateTo []))
      \/ (callFailure c = None /\ callRecords c <> [] /\
          r0 = inr (S (n + 0), acc ++ collected dateFrom dateTo ([] ++ [c]))) ->
      exists pre last,
        calls e1 = calls e ++ pre ++ last /\ warnings e1 = warnings e /\
        Forall (pageRequest endpoint) (pre ++ last) /\
        Forall (continuing dateFrom) pre /\
        ((last = [] /\ length pre = S budget /\
          r0 = inr ((n + length pre)%nat, acc ++ collected dateFrom dateTo pre))
         \/ exists c0, last = [c0] /\ (length pre < S budget)%nat /\
            ((exists error, callFailure c0 = Some error /\
                r0 = inl (pageError (n + length pre) endpoint error))
             \/ (callFailure c0 = None /\ callRecords c0 = [] /\
                 r0 = inr ((n + length pre)%nat, acc ++ collected dateFrom dateTo pre))
             \/ (callFailure c0 = None /\ callRecords c0 <> [] /\
                 r0 = inr (S (n + length pre),
                          acc ++ collected dateFrom dateTo (pre ++ [c0])))))).
    { intros r0 Hr0. exists [], [c]. simpl. repeat split; auto.
      right. exists c. repeat split; [lia | exact Hr0]. }
    destruct out as [error|resp].
    { intros [= <- <-]. apply Hstop. left. exists error.
      by rewrite Nat.add_0_r. }
    destruct (json resp) as [error|body] eqn:Hjson.
    { intros [= <- <-]. apply Hstop. left. exists error.
      rewrite Nat.add_0_r. split; [|done].
      unfold callFailure. simpl. by rewrite Hjson. }
    assert (Hbody : callBody c = Some body).
    { unfold callBody. simpl. by rewrite Hjson. }
    assert (Hnofail : callFailure c = None).
    { unfold callFailure. simpl. by rewrite Hjson. }
    assert (Hrecs : callRecords c = default [] (records body)).
    { unfold callRecords. by rewrite Hbody. }
    assert (Hcol : collected dateFrom dateTo [c]
                   = filter (fun m => inRange dateFrom dateTo m = true)
                            (default [] (records body))).
    { unfold collected. simpl. by rewrite app_nil_r, Hrecs. }
    destruct (decide (length (default [] (records body)) = 0%nat)) as [Hlen|Hlen].
    { intros [= <- <-]. apply Hstop. right. left.
      rewrite Nat.add_0_r. repeat split; [done | | ].
      - rewrite Hrecs. by apply nil_length_inv.
      - unfold collected. simpl. by rewrite app_nil_r. }
    assert (Hne : callRecords c <> []).
    { rewrite Hrecs. intros Heq. by rewrite Heq in Hlen. }
    destruct (classifyPage dateFrom dateTo (acc, false) (default [] (records body)))
      as [acc' found'] eqn:Hclass.
    assert (Hacc' : acc' = acc ++ collected dateFrom dateTo [c]).
    { rewrite Hcol, <- classifyPage_fst with (f := false). by rewrite Hclass. }
    assert (Hfound' : found' = existsb (olderThanRange dateFrom)
                                 (default [] (records body))).
    { rewrite <- (orb_false_l (existsb _ _)).
      rewrite <- classifyPage_snd with (dateTo := dateTo) (acc := acc).
      by rewrite Hclass. }
    assert (Hlast : forall r0, r0 = inr (S n, acc') ->
      (exists error, callFailure c = Some error /\
          r0 = inl (pageError (n + 0) endpoint error))
      \/ (callFailure c = None /\ callRecords c = [] /\
          r0 = inr ((n + 0)%nat, acc ++ collected dateFrom dateTo []))
      \/ (callFailure c = None /\ callRecords c <> [] /\
          r0 = inr (S (n + 0), acc ++ collected dateFrom dateTo ([] ++ [c])))).
    { intros r0 ->. right. right. rewrite Nat.add_0_r. simpl.
      by rewrite Hacc'. }
    destruct found' eqn:Hf.
    { intros [= <- <-]. by apply Hstop, Hlast. }
    destruct (truthyToken (nextPageToken body)) as [tok'|] eqn:Htok.
    2: { intros [= <- <-]. by apply Hstop, Hlast. }
    intros Hrun. apply IH in Hrun
      as (pre & last & Hc2 & Hw2 & Hreqs & Hcont & Hcases).
    exists (c :: pre), last. simpl.
    assert (Hc : continuing dateFrom c).
    { exists body. split; [done|]. unfold pageContinues, bodyRecords.
      repeat split.
      - by rewrite <- Hrecs.
      - by apply existsb_older_false.
      - by rewrite Htok. }
    assert (Hcoll : forall cs, acc' ++ collected dateFrom dateTo cs
                    = acc ++ collected dateFrom dateTo (c :: cs)).
    { intros cs. change (c :: cs) with ([c] ++ cs).
      by rewrite collected_app, Hacc', <- app_assoc. }
    repeat split.
    + rewrite Hc2, Hcalls, <- !app_assoc. done.
    + by rewrite Hw2.
    + by constructor.
    + by constructor.
    + rewrite Nat.add_succ_r. simpl in Hcases.
      destruct Hcases as [(-> & Hl & ->) | (c0 & -> & Hl & Hc0)].
      * left. repeat split; [by rewrite Hl|]. by rewrite Hcoll.
      * right. exists c0. repeat split; [lia|].
        destruct Hc0 as [(error & ? & ->) | [(? & ? & ->) | (? & ? & ->)]].
        -- left. by exists error.
        -- right. left. by rewrite Hcoll.
        -- right. right. by rewrite Hcoll.
Qed.

End FetchFacts.

(** ** The fetchers as a whole *)

Lemma stopping_call_is_last (dateFrom : Date) (pre0 last0 pre post : list Call)
    (c : Call) :
  pre ++ c :: post = pre0 ++ last0 ->
  Forall (continuing dateFrom) pre0 ->
  ~ continuing dateFrom c ->
  last0 = [] \/ (exists c0, last0 = [c0]) ->
  post = [] /\ pre = pre0 /\ last0 = [c].
Proof.
  intros Heq Hcont Hc [-> | [c0 ->]].
  - rewrite app_nil_r in Heq. exfalso. apply Hc.
    eapply Forall_forall; [exact Hcont|]. rewrite <- Heq. set_solver.
  - apply app_cons_eq_snoc in Heq as [(-> & -> & ->) | Hin]; [done|].
    exfalso. apply Hc. by eapply Forall_forall.
Qed.

Section FetcherFacts.

Context {World : Type}.
Variable platform_get : string -> Query -> World -> (JsError + Response) * World.

Lemma discoverEndpoint_spec (chatId : string) (e e1 : Env World)
    (r : APIError + string) :
  discoverEndpoint platform_get chatId e = (r, e1) ->
  exists probe,
    calls e1 = calls e ++ [probe] /\
    warnings e1 = warnings e /\
    call_endpoint probe = teamsEndpoint chatId /\
    call_qs probe = probeQuery /\
    r = resolveProbe chatId (call_outcome probe).
Proof.
  unfold discoverEndpoint.
  destruct (get platform_get _ _ e) as [out e0] eqn:Hget.
  apply get_spec in Hget as (Hcalls & Hwarn & _).
  intros Hr.
  assert (e1 = e0 /\ r = resolveProbe chatId out) as [-> ->].
  { unfold resolveProbe, resolutionFailure.
    destruct out as [error|]; [destruct (decide _)|]; by simplify_eq. }
  by eexists.
Qed.

(** Every run of the paginated fetcher: the probe, then, for a window of
    valid dates, the loop. *)
Lemma fetchChatMessagesEnhanced_inv (chatId : string) (dateFrom dateTo : Date)
    (e e' : Env World) (r : Thrown + list Message) :
  fetchChatMessagesEnhanced platform_get chatId dateFrom dateTo e = (r, e') ->
  exists probe,
    call_endpoint probe = teamsEndpoint chatId /\
    call_qs probe = probeQuery /\
    ((exists thrown, r = inl thrown /\
        calls e' = calls e ++ [probe] /\ warnings e' = warnings e /\
        match resolveProbe chatId (call_outcome probe) with
        | inl err => thrown = ThrownAPIError err
        | inr _ =>
            thrown = ThrownRangeError /\
            JsDate.valid dateFrom && JsDate.valid dateTo = false
        end)
     \/ exists endpoint e1 pr e2,
          resolveProbe chatId (call_outcome probe) = inr endpoint /\
          calls e1 = calls e ++ [probe] /\ warnings e1 = warnings e /\
          paginate platform_get maxPages endpoint dateFrom dateTo None 0 [] false e1
            = (pr, e2) /\
          calls e' = calls e2 /\
          match pr with
          | inl err => r = inl (ThrownAPIError err) /\ warnings e' = warnings e2
          | inr (k, msgs) =>
              r = inr (sortMessages msgs) /\
              warnings e' = warnings e2 ++ pageLimitWarnings chatId k (length msgs)
          end).
Proof.
  unfold fetchChatMessagesEnhanced.
  destruct (discoverEndpoint platform_get chatId e) as [rd e1] eqn:Hd.
  apply discoverEndpoint_spec in Hd as (probe & Hc1 & Hw1 & Hep & Hqs & ->).
  intros Hr. exists probe. split; [done|]. split; [done|].
  destruct (resolveProbe chatId (call_outcome probe)) as [err|endpoint].
  { left. exists (ThrownAPIError err). by simplify_eq. }
  destruct (JsDate.valid dateFrom && JsDate.valid dateTo) eqn:Hvalid; cycle 1.
  { left. exists ThrownRangeError. by simplify_eq. }
  right.
  destruct (paginate platform_get maxPages endpoint dateFrom dateTo None 0 [] false e1)
    as [pr e2] eqn:Hp.
  exists endpoint, e1, pr, e2.
  split; [done|]. split; [done|]. split; [done|]. split; [done|].
  destruct pr as [err|[k msgs]].
  - by simplify_eq.
  - unfold pageLimitWarnings.
    destruct (decide _); simplify_eq; simpl; [done|].
    by rewrite app_nil_r.
Qed.

(** Every run of the single-page fetcher: the probe, then one page request. *)
Lemma fetchChatMessagesSimple_inv (chatId : string) (dateFrom dateTo : Date)
    (e e' : Env World) (r : Thrown + list Message) :
  fetchChatMessagesSimple platform_get chatId dateFrom dateTo e = (r, e') ->
  exists probe,
    call_endpoint probe = teamsEndpoint chatId /\
    call_qs probe = probeQuery /\
    ((exists err, resolveProbe chatId (call_outcome probe) = inl err /\
        r = inl (ThrownAPIError err) /\ calls e' = calls e ++ [probe])
     \/ exists endpoint c,
          resolveProbe chatId (call_outcome probe) = inr endpoint /\
          calls e' = calls e ++ [probe; c] /\
          pageRequest endpoint c /\
          pageToken (call_qs c) = None /\
          match callFailure c with
          | Some error =>
              r = inl (ThrownAPIError
                         (mkAPIError ("Failed to fetch messages from " +:+ endpoint)
                                     (status error) "RingCentral"))
          | None =>
              r = inr (reverse (filter (fun m => inRange dateFrom dateTo m = true)
                                       (callRecords c)))
          end).
Proof.
  unfold fetchChatMessagesSimple.
  destruct (discoverEndpoint platform_get chatId e) as [rd e1] eqn:Hd.
  apply discoverEndpoint_spec in Hd as (probe & Hc1 & Hw1 & Hep & Hqs & ->).
  intros Hr. exists probe. split; [done|]. split; [done|].
  destruct (resolveProbe chatId (call_outcome probe)) as [err|endpoint].
  { left. exists err. by simplify_eq. }
  right.
  destruct (get platform_get endpoint _ e1) as [out e2] eqn:Hget.
  apply get_spec in Hget as (Hc2 & _ & _).
  eexists endpoint, _. split; [done|].
  split; [|split; [|split]].
  - assert (calls e' = calls e2) as ->.
    { destruct out as [|resp]; [|destruct (json resp)]; by simplify_eq. }
    rewrite Hc2, Hc1, <- app_assoc. done.
  - done.
  - done.
  - unfold callFailure, callRecords, callBody, bodyRecords. simpl.
    destruct out as [|resp]; [|destruct (json resp)]; by simplify_eq.
Qed.

End FetcherFacts.

(** ** Claims on the paginated date-range fetcher *)

Section EnhancedClaims.

Context {World : Type}.
Variable platform_get : string -> Query -> World -> (JsError + Response) * World.

Lemma paginate_result_inRange (budget : nat) (endpoint : string)
    (dateFrom dateTo : Date) (tok : option string) (n k : nat)
    (e e' : Env World) (msgs : list Message) :
  paginate platform_get budget endpoint dateFrom dateTo tok n [] false e
    = (inr (k, msgs), e') ->
  Forall (fun m => inRange dateFrom dateTo m = true) msgs.
Proof.
  intros (pre & last & _ & _ & _ & _ & Hcases)%paginate_trace.
  destruct Hcases as [(_ & _ & Hr) | (c & _ & _ & Hc)].
  - simplify_eq. apply collected_inRange.
  - destruct Hc as [(error & _ & Hr) | [(_ & _ & Hr) | (_ & _ & Hr)]];
      simplify_eq; apply collected_inRange.
Qed.

(** The fetch throws an [APIError] only when one of its requests has
    failed: as long as the service answers, and the window is one of valid
    dates, it returns a list. *)
Lemma fetchChatMessagesEnhanced_throws_only_on_failure (w : World) (chatId : string)
    (dateFrom dateTo : Date) (err : APIError) :
  (fetchChatMessagesEnhanced platform_get chatId dateFrom dateTo (start w)).1
    = inl (ThrownAPIError err) ->
  exists c,
    c ∈ calls (fetchChatMessagesEnhanced platform_get chatId dateFrom dateTo (start w)).2
    /\ is_Some (callFailure c).
Proof.
  destruct (fetchChatMessagesEnhanced _ _ _ _ _) as [r e'] eqn:Hrun. simpl.
  intros ->.
  apply fetchChatMessagesEnhanced_inv in Hrun as (probe & _ & _ & Hrun).
  destruct Hrun as [(thrown & [= <-] & Hc & _ & Hres)
                   | (endpoint & e1 & pr & e2 & _ & Hc1 & _ & Hp & Hc & Hr)].
  - exists probe. split; [rewrite Hc; set_solver|].
    unfold resolveProbe in Hres. unfold callFailure.
    destruct (call_outcome probe) as [error|]; [by eexists|].
    by destruct Hres.
  - apply paginate_trace in Hp as (pre & last & Hc2 & _ & _ & _ & Hcases).
    destruct pr as [err0|[k msgs]]; [|destruct Hr as [Hr _]; discriminate].
    destruct Hcases as [(_ & _ & ?) | (c & -> & _ & Hc0)]; [done|].
    destruct Hc0 as [(error & Hf & _) | [(_ & _ & ?) | (_ & _ & ?)]]; [|done..].
    exists c. split; [|by eexists].
    rewrite Hc, Hc2, list_elem_of_In, !in_app_iff. simpl. auto.
Qed.

(** C1: whatever the upstream service does, and for every window
    [from <= to], the messages [fetchChatMessagesEnhanced] returns all have a
    creation time [t] with [from <= t <= to], and they are in non-decreasing
    order of creation time. *)
Theorem fetchChatMessagesEnhanced_window_sorted (w : World) (chatId : string)
    (from to : Z) (msgs : list Message) :
  from <= to ->
  (fetchChatMessagesEnhanced platform_get chatId (Some from) (Some to) (start w)).1
    = inr msgs ->
  Forall (withinWindow from to) msgs /\ StronglySorted timeLe msgs.
Proof.
  intros _ Hres.
  destruct (fetchChatMessagesEnhanced _ _ _ _ _) as [r e'] eqn:Hrun.
  simpl in Hres. subst r.
  apply fetchChatMessagesEnhanced_inv in Hrun as (probe & _ & _ & Hrun).
  destruct Hrun as [(thrown & ? & _) | (endpoint & e1 & pr & e2 & _ & _ & _ & Hp & _ & Hr)];
    [done|].
  destruct pr as [err|[k all]]; [by destruct Hr|].
  destruct Hr as [[= ->] _].
  apply paginate_result_inRange in Hp.
  split.
  - rewrite sortMessages_Permutation.
    eapply Forall_impl; [exact Hp|]. intros m. by rewrite inRange_spec.
  - apply sortMessages_sorted.
    eapply Forall_impl; [exact Hp|]. intros m. apply inRange_dated.
Qed.

(** C2: a page request whose page holds a record older than [dateFrom] is
    the last request of the run, and classifying that page sets the
    [foundOlderThanRange] flag. *)
Theorem pagination_stops_at_older_record (w : World) (chatId : string)
    (dateFrom dateTo : Date) (probe c : Call) (pre post : list Call) :
  calls (fetchChatMessagesEnhanced platform_get chatId dateFrom dateTo (start w)).2
    = probe :: pre ++ c :: post ->
  (exists m, m ∈ callRecords c /\ olderThanRange dateFrom m = true) ->
  post = [] /\
  forall acc, (classifyPage dateFrom dateTo (acc, false) (callRecords c)).2 = true.
Proof.
  intros Hcalls (m & Hm & Hold).
  split.
  2: { intros acc. rewrite classifyPage_snd. simpl. apply existsb_older. eauto. }
  destruct (fetchChatMessagesEnhanced _ _ _ _ _) as [r e'] eqn:Hrun.
  simpl in Hcalls.
  apply fetchChatMessagesEnhanced_inv in Hrun as (probe0 & _ & _ & Hrun).
  destruct Hrun as [(thrown & _ & Hc & _)
                   | (endpoint & e1 & pr & e2 & _ & Hc1 & _ & Hp & Hc & _)].
  { rewrite Hc in Hcalls. simpl in Hcalls. simplify_eq.
    by destruct pre. }
  apply paginate_trace in Hp as (pre0 & last0 & Hc2 & _ & _ & Hcont & Hcases).
  assert (Heq : pre ++ c :: post = pre0 ++ last0).
  { rewrite Hc, Hc2, Hc1 in Hcalls. simpl in Hcalls. by simplify_eq. }
  assert (Hnc : ~ continuing dateFrom c).
  { intros Hcc. by rewrite (continuing_no_older _ _ _ Hcc Hm) in Hold. }
  assert (Hlast : last0 = [] \/ exists c0, last0 = [c0]).
  { destruct Hcases as [(-> & _) | (c0 & -> & _)]; eauto. }
  by destruct (stopping_call_is_last _ _ _ _ _ _ Heq Hcont Hnc Hlast) as (-> & _).
Qed.

(** C7: when a page request of the loop fails, it is the last request, and
    the fetch returns no messages but throws the [APIError] that names the
    page number of the failed request and the endpoint it was sent to. *)
Theorem page_failure_aborts_fetch (w : World) (chatId : string)
    (dateFrom dateTo : Date) (probe c : Call) (pre post : list Call)
    (error : JsError) :
  calls (fetchChatMessagesEnhanced platform_get chatId dateFrom dateTo (start w)).2
    = probe :: pre ++ c :: post ->
  callFailure c = Some error ->
  post = [] /\
  (fetchChatMessagesEnhanced platform_get chatId dateFrom dateTo (start w)).1
    = inl (ThrownAPIError
             (mkAPIError ("Failed to fetch page " +:+ pretty (S (length pre))
                            +:+ " from " +:+ call_endpoint c)
                         (status error) "RingCentral")).
Proof.
  intros Hcalls Hfail.
  destruct (fetchChatMessagesEnhanced _ _ _ _ _) as [r e'] eqn:Hrun.
  simpl in *.
  apply fetchChatMessagesEnhanced_inv in Hrun as (probe0 & _ & _ & Hrun).
  destruct Hrun as [(thrown & _ & Hc & _)
                   | (endpoint & e1 & pr & e2 & _ & Hc1 & _ & Hp & Hc & Hr)].
  { rewrite Hc in Hcalls. simpl in Hcalls. simplify_eq.
    by destruct pre. }
  apply paginate_trace in Hp as (pre0 & last0 & Hc2 & _ & Hreq & Hcont & Hcases).
  assert (Heq : pre ++ c :: post = pre0 ++ last0).
  { rewrite Hc, Hc2, Hc1 in Hcalls. simpl in Hcalls. by simplify_eq. }
  assert (Hnc : ~ continuing dateFrom c).
  { intros Hcc. apply continuing_no_failure in Hcc. congruence. }
  assert (Hlast : last0 = [] \/ exists c0, last0 = [c0]).
  { destruct Hcases as [(-> & _) | (c0 & -> & _)]; eauto. }
  destruct (stopping_call_is_last _ _ _ _ _ _ Heq Hcont Hnc Hlast) as (-> & -> & ->).
  split; [done|].
  apply Forall_app in Hreq as [_ Hreq].
  apply Forall_singleton in Hreq as [Hep _].
  destruct Hcases as [(? & _) | (c0 & [= <-] & _ & Hc0)]; [done|].
  destruct Hc0 as [(error0 & Hf0 & ->) | [(Hf0 & _) | (Hf0 & _)]];
    [|congruence..].
  destruct Hr as [-> _]. rewrite Hf0 in Hfail. simplify_eq.
  reflexivity.
Qed.

End EnhancedClaims.

Lemma fetchChatMessagesEnhanced_window_sorted_witness :
  Forall (withinWindow 10 20) [Sample.post "z" 11; Sample.post "a" 12; Sample.post "b" 15]
  /\ StronglySorted timeLe [Sample.post "z" 11; Sample.post "a" 12; Sample.post "b" 15].
Proof.
  apply (fetchChatMessagesEnhanced_window_sorted Sample.scripted Sample.feed Sample.chat);
    [lia | vm_compute; reflexivity].
Defined.

Lemma pagination_stops_at_older_record_witness :
  @nil Call = [] /\
  forall acc,
    (classifyPage (Some 10) (Some 20) (acc, false) (callRecords Sample.secondCall)).2
    = true.
Proof.
  apply (pagination_stops_at_older_record Sample.scripted Sample.feed Sample.chat
           (Some 10) (Some 20) Sample.probeCall Sample.secondCall [Sample.firstCall] []).
  - vm_compute. reflexivity.
  - exists (Sample.post "y" 5). split; [|reflexivity].
    vm_compute. apply list_elem_of_In. simpl. auto.
Defined.

Lemma page_failure_aborts_fetch_witness :
  @nil Call = [] /\
  (fetchChatMessagesEnhanced Sample.scripted Sample.chat (Some 10) (Some 20)
     (start Sample.brokenFeed)).1
  = inl (ThrownAPIError
           (mkAPIError
              "Failed to fetch page 2 from /restapi/v1.0/glip/teams/7595909126/posts"
              (Some 500) "RingCentral")).
Proof.
  exact (page_failure_aborts_fetch Sample.scripted Sample.brokenFeed Sample.chat
           (Some 10) (Some 20) Sample.probeCall Sample.failedCall [Sample.firstCall] []
           Sample.serverError eq_refl eq_refl).
Defined.

(** ** The page limit *)

Section PageLimit.

Context {World : Type}.
Variable platform_get : string -> Query -> World -> (JsError + Response) * World.

(** While the service keeps delivering pages that continue, the loop uses up
    its whole budget, one request per page. *)
Lemma paginate_served (budget : nat) (endpoint : string) (dateFrom dateTo : Date)
    (tok : option string) (n : nat) (acc : list Message) (e : Env World)
    (pages : list PageJson) :
  servedPages platform_get budget endpoint tok (world e) = Some pages ->
  Forall (pageContinues dateFrom) pages ->
  exists e' new,
    paginate platform_get budget endpoint dateFrom dateTo tok n acc false e
      = (inr ((n + budget)%nat,
              acc ++ filter (fun m => inRange dateFrom dateTo m = true)
                            (concat (map bodyRecords pages))), e') /\
    calls e' = calls e ++ new /\
    length new = budget /\
    Forall (pageRequest endpoint) new /\
    warnings e' = warnings e.
Proof.
  revert tok n acc e pages.
  induction budget as [|budget IH]; intros tok n acc e pages; simpl.
  - intros [= <-] _. exists e, []. simpl.
    by rewrite !app_nil_r, Nat.add_0_r.
  - destruct (get platform_get endpoint _ e) as [out e1] eqn:Hget.
    apply get_spec in Hget as (Hcalls & Hwarn & ->).
    destruct out as [|resp]; [done|].
    destruct (json resp) as [|body]; [done|].
    destruct (servedPages platform_get budget endpoint
                (truthyToken (nextPageToken body)) (world e1))
      as [bodies|] eqn:Hserved; [|done].
    intros [= <-] Hall.
    apply Forall_cons in Hall as [(Hne & Hnew & Htok) Hall].
    unfold bodyRecords in Hne, Hnew.
    rewrite decide_False by (by destruct (default [] (records body))).
    destruct (classifyPage dateFrom dateTo (acc, false) (default [] (records body)))
      as [acc' found'] eqn:Hclass.
    assert (Hacc' : acc' = acc ++ filter (fun m => inRange dateFrom dateTo m = true)
                                         (default [] (records body))).
    { rewrite <- classifyPage_fst with (f := false). by rewrite Hclass. }
    assert (Hfound' : found' = false).
    { apply existsb_older_false in Hnew. rewrite <- Hnew.
      rewrite <- (orb_false_l (existsb _ _)).
      rewrite <- classifyPage_snd with (dateTo := dateTo) (acc := acc).
      by rewrite Hclass. }
    subst found'.
    destruct (truthyToken (nextPageToken body)) as [tok'|] eqn:Htok'; [|done].
    destruct (IH (Some tok') (S n) acc' e1 bodies Hserved Hall)
      as (e' & new & Hrun & Hc' & Hlen & Hreq & Hw').
    exists e', (mkCall endpoint {| recordCount := recordsPerPage; pageToken := tok |}
                       (inr resp) :: new).
    split; [|split; [|split; [|split]]].
    + rewrite Hrun. do 3 f_equal; [lia|].
      simpl. rewrite filter_app, Hacc', <- app_assoc. done.
    + rewrite Hc', Hcalls, <- app_assoc. done.
    + simpl. by rewrite Hlen.
    + by constructor.
    + by rewrite Hw'.
Qed.

Lemma discoverEndpoint_run (chatId : string) (e : Env World)
    (probed : JsError + Response) (w1 : World) :
  platform_get (teamsEndpoint chatId) probeQuery (world e) = (probed, w1) ->
  discoverEndpoint platform_get chatId e
  = (resolveProbe chatId probed,
     {| world := w1;
        calls := calls e ++ [mkCall (teamsEndpoint chatId) probeQuery probed];
        warnings := warnings e |}).
Proof.
  intros Hprobe. unfold discoverEndpoint, get, probeQuery in *. rewrite Hprobe.
  unfold resolveProbe, resolutionFailure.
  destruct probed as [error|]; [destruct (decide _)|]; done.
Qed.

(** C3: for every window of two dates, when the first [maxPages] = 20 pages
    the service delivers all have records, none older than the start of the
    window, and a continuation token, [fetchChatMessagesEnhanced] makes
    exactly 20 page requests after its probe, returns (rather than throws)
    the in-range records of those 20 pages, sorted, and logs the page-limit
    warning. *)
Theorem page_limit_returns_partial_result (w w1 : World) (chatId : string)
    (from to : Z) (probed : JsError + Response) (endpoint : string)
    (pages : list PageJson) :
  platform_get (teamsEndpoint chatId) probeQuery w = (probed, w1) ->
  resolveProbe chatId probed = inr endpoint ->
  servedPages platform_get maxPages endpoint None w1 = Some pages ->
  Forall (pageContinues (Some from)) pages ->
  exists e' probe reqs,
    fetchChatMessagesEnhanced platform_get chatId (Some from) (Some to) (start w)
      = (inr (sortMessages
                (filter (fun m => inRange (Some from) (Some to) m = true)
                        (concat (map bodyRecords pages)))), e') /\
    calls e' = probe :: reqs /\
    length reqs = 20%nat /\
    Forall (pageRequest endpoint) reqs /\
    warnings e'
      = [mkPageLimitWarning chatId 20 20
           (length (filter (fun m => inRange (Some from) (Some to) m = true)
                           (concat (map bodyRecords pages))))].
Proof.
  intros Hprobe Hres Hserved Hall.
  unfold fetchChatMessagesEnhanced.
  rewrite (discoverEndpoint_run chatId (start w) probed w1 Hprobe), Hres.
  set (e1 := {| world := w1;
                calls := calls (start w)
                         ++ [mkCall (teamsEndpoint chatId) probeQuery probed];
                warnings := warnings (start w) |}).
  destruct (paginate_served maxPages endpoint (Some from) (Some to) None 0 [] e1 pages
              Hserved Hall) as (e2 & new & Hrun & Hc & Hlen & Hreq & Hw).
  cbn [JsDate.valid andb].
  rewrite Hrun. simpl.
  eexists _, _, new. split; [reflexivity|]. simpl.
  split; [by rewrite Hc|]. split; [done|]. split; [done|].
  by rewrite Hw.
Qed.

End PageLimit.

Lemma page_limit_returns_partial_result_witness :
  exists e' probe reqs,
    fetchChatMessagesEnhanced Sample.scripted Sample.chat (Some 0) (Some 100)
        (start (Sample.longFeed 25))
      = (inr (replicate 20 (Sample.post "m" 50)), e') /\
    calls e' = probe :: reqs /\
    length reqs = 20%nat /\
    Forall (pageRequest (teamsEndpoint Sample.chat)) reqs /\
    warnings e' = [mkPageLimitWarning Sample.chat 20 20 20].
Proof.
  apply (page_limit_returns_partial_result Sample.scripted
           (Sample.longFeed 25) (replicate 25 (inr {| json := inr Sample.fullPage |}))
           Sample.chat 0 100 Sample.ok (teamsEndpoint Sample.chat)
           (replicate 20 Sample.fullPage)).
  - reflexivity.
  - reflexivity.
  - vm_compute. reflexivity.
  - apply Forall_forall. intros body [-> _]%elem_of_replicate.
    repeat split; [done | by repeat constructor | done].
Defined.

(** ** Route resolution and strategy selection *)

Lemma teams_not_chats (chatId : string) : teamsEndpoint chatId <> chatsEndpoint chatId.
Proof. unfold teamsEndpoint, chatsEndpoint. cbn. intros H. by injection H. Qed.

Lemma ceilDiv_le (d k : Z) : ceilDiv d msPerDay <= k <-> d <= k * msPerDay.
Proof.
  unfold ceilDiv.
  assert (Hpos : 0 < msPerDay) by reflexivity.
  split; intros H.
  - destruct (Z_le_gt_dec d (k * msPerDay)) as [|Hgt]; [done|].
    assert (- d / msPerDay < - k); [|lia].
    apply Z.div_lt_upper_bound; lia.
  - assert (- k <= - d / msPerDay); [|lia].
    apply Z.div_le_lower_bound; lia.
Qed.

Lemma isRecent_spec (now : Z) (dateFrom : Date) :
  isRecent (Some now) dateFrom = true
  <-> exists from, dateFrom = Some from /\ now - from <= 3 * msPerDay.
Proof.
  unfold isRecent, daysDifference. destruct dateFrom as [from|]; simpl.
  - rewrite Z.leb_le, ceilDiv_le. split; [eauto|]. by intros (? & [= <-] & ?).
  - split; [done|]. by intros (? & ? & _).
Qed.

Section SmartClaims.

Context {World : Type}.
Variable platform_get : string -> Query -> World -> (JsError + Response) * World.

Lemma pageError_not_resolutionFailure (n : nat) (endpoint chatId : string)
    (error error' : JsError) :
  pageError n endpoint error <> resolutionFailure chatId error'.
Proof. unfold pageError, resolutionFailure. cbn. intros H. by injection H. Qed.

Lemma enhanced_route (chatId : string) (dateFrom dateTo : Date) (w : World) :
  exists probe rest,
    calls (fetchChatMessagesEnhanced platform_get chatId dateFrom dateTo (start w)).2
      = probe :: rest /\
    call_endpoint probe = teamsEndpoint chatId /\
    call_qs probe = probeQuery /\
    match resolveProbe chatId (call_outcome probe) with
    | inr endpoint =>
        Forall (pageRequest endpoint) rest /\
        (JsDate.valid dateFrom && JsDate.valid dateTo = true -> rest <> []) /\
        forall error,
          (fetchChatMessagesEnhanced platform_get chatId dateFrom dateTo (start w)).1
            <> inl (ThrownAPIError (resolutionFailure chatId error))
    | inl err =>
        rest = [] /\
        (fetchChatMessagesEnhanced platform_get chatId dateFrom dateTo (start w)).1
          = inl (ThrownAPIError err)
    end.
Proof.
  destruct (fetchChatMessagesEnhanced _ _ _ _ _) as [r e'] eqn:Hrun. simpl.
  apply fetchChatMessagesEnhanced_inv in Hrun as (probe & Hep & Hqs & Hrun).
  destruct Hrun as [(thrown & -> & Hc & _ & Hres)
                   | (endpoint & e1 & pr & e2 & Hres & Hc1 & _ & Hp & Hc & Hr)].
  - exists probe, [].
    destruct (resolveProbe chatId (call_outcome probe)) as [err|endpoint].
    + subst thrown. by repeat split.
    + destruct Hres as [-> Hinvalid]. repeat split; try done.
      by rewrite Hinvalid.
  - apply paginate_trace in Hp as (pre & last & Hc2 & _ & Hreq & _ & Hcases).
    exists probe, (pre ++ last). rewrite Hres.
    split; [by rewrite Hc, Hc2, Hc1|]. split; [done|]. split; [done|].
    split; [done|]. split.
    + intros _ Hnil. apply app_eq_nil in Hnil as [-> ->].
      destruct Hcases as [(_ & Hlen & _) | (c & ? & _)]; [|done].
      by vm_compute in Hlen.
    + intros error Heq.
      destruct pr as [err|[k msgs]]; destruct Hr as [-> _]; [|done].
      injection Heq as Heq.
      destruct Hcases as [(_ & _ & ?) | (c & _ & _ & Hc0)]; [done|].
      destruct Hc0 as [(error0 & _ & [= ->]) | [(_ & _ & ?) | (_ & _ & ?)]];
        [|done..].
      by apply pageError_not_resolutionFailure in Heq.
Qed.

Lemma simple_route (chatId : string) (dateFrom dateTo : Date) (w : World) :
  exists probe rest,
    calls (fetchChatMessagesSimple platform_get chatId dateFrom dateTo (start w)).2
      = probe :: rest /\
    call_endpoint probe = teamsEndpoint chatId /\
    call_qs probe = probeQuery /\
    match resolveProbe chatId (call_outcome probe) with
    | inr endpoint =>
        Forall (pageRequest endpoint) rest /\
        rest <> [] /\
        forall error,
          (fetchChatMessagesSimple platform_get chatId dateFrom dateTo (start w)).1
            <> inl (ThrownAPIError (resolutionFailure chatId error))
    | inl err =>
        rest = [] /\
        (fetchChatMessagesSimple platform_get chatId dateFrom dateTo (start w)).1
          = inl (ThrownAPIError err)
    end.
Proof.
  destruct (fetchChatMessagesSimple _ _ _ _ _) as [r e'] eqn:Hrun. simpl.
  apply fetchChatMessagesSimple_inv in Hrun as (probe & Hep & Hqs & Hrun).
  destruct Hrun as [(err & Hres & -> & Hc) | (endpoint & c & Hres & Hc & Hreq & _ & Hr)].
  - exists probe, []. rewrite Hres. by repeat split.
  - exists probe, [c]. rewrite Hres. repeat split; try done.
    + by apply Forall_singleton.
    + intros error Heq. destruct (callFailure c); subst r; [|done].
      unfold resolutionFailure in Heq. cbn in Heq. discriminate Heq.
Qed.

(** C6: every fetch, over a window of two dates, starts with exactly one
    probe, sent to the 'teams' endpoint; all later requests are page
    requests.  When the probe succeeds the fetch goes on to request pages,
    all from the 'teams' endpoint and none from the 'chats' one; when it
    fails with a 404 the fetch does not give up on the chat but goes on to
    request pages, all from the 'chats' endpoint and none from the 'teams'
    one; when it fails in any other way nothing more is requested and the
    fetch throws the [APIError] that names the chat. *)
Theorem route_resolution (w : World) (now : Z) (chatId : string) (from to : Z) :
  exists probe rest,
    calls (fetchChatMessagesSmart platform_get now chatId (Some from) (Some to)
             (start w)).2
      = probe :: rest /\
    call_endpoint probe = teamsEndpoint chatId /\
    call_qs probe = probeQuery /\
    Forall (fun c => call_qs c <> probeQuery) rest /\
    match call_outcome probe with
    | inr _ =>
        rest <> [] /\
        Forall (pageRequest (teamsEndpoint chatId)) rest /\
        Forall (fun c => call_endpoint c <> chatsEndpoint chatId) rest /\
        forall failure,
          (fetchChatMessagesSmart platform_get now chatId (Some from) (Some to)
             (start w)).1
            <> inl (ThrownAPIError (resolutionFailure chatId failure))
    | inl error =>
        if decide (response_status error = Some 404)
        then
          rest <> [] /\
          Forall (pageRequest (chatsEndpoint chatId)) rest /\
          Forall (fun c => call_endpoint c <> teamsEndpoint chatId) rest /\
          forall failure,
            (fetchChatMessagesSmart platform_get now chatId (Some from) (Some to)
               (start w)).1
              <> inl (ThrownAPIError (resolutionFailure chatId failure))
        else
          rest = [] /\
          (fetchChatMessagesSmart platform_get now chatId (Some from) (Some to)
             (start w)).1
            = inl (ThrownAPIError
                     (mkAPIError ("Failed to determine endpoint for chat " +:+ chatId)
                                 (status error) "RingCentral"))
    end.
Proof.
  assert (Hboth : exists probe rest,
    calls (fetchChatMessagesSmart platform_get now chatId (Some from) (Some to)
             (start w)).2
      = probe :: rest /\
    call_endpoint probe = teamsEndpoint chatId /\
    call_qs probe = probeQuery /\
    match resolveProbe chatId (call_outcome probe) with
    | inr endpoint =>
        Forall (pageRequest endpoint) rest /\
        rest <> [] /\
        forall failure,
          (fetchChatMessagesSmart platform_get now chatId (Some from) (Some to)
             (start w)).1
            <> inl (ThrownAPIError (resolutionFailure chatId failure))
    | inl err =>
        rest = [] /\
        (fetchChatMessagesSmart platform_get now chatId (Some from) (Some to)
           (start w)).1
          = inl (ThrownAPIError err)
    end).
  { unfold fetchChatMessagesSmart.
    destruct (isRecent (Some now) (Some from)); [apply simple_route|].
    destruct (enhanced_route chatId (Some from) (Some to) w)
      as (probe & rest & Hcalls & Hep & Hqs & Hres).
    exists probe, rest. split; [done|]. split; [done|]. split; [done|].
    destruct (resolveProbe chatId (call_outcome probe)); [done|].
    destruct Hres as (Hreq & Hne & Hr). auto. }
  destruct Hboth as (probe & rest & Hcalls & Hep & Hqs & Hres).
  exists probe, rest. split; [done|]. split; [done|]. split; [done|].
  assert (Hpages : forall endpoint, Forall (pageRequest endpoint) rest ->
                   Forall (fun c => call_qs c <> probeQuery) rest).
  { intros endpoint Hall. eapply Forall_impl; [exact Hall|].
    intros c [_ Hcount] Heq. by rewrite Heq in Hcount. }
  unfold resolveProbe in Hres.
  destruct (call_outcome probe) as [error|resp].
  - destruct (decide (response_status error = Some 404)).
    + destruct Hres as (Hreq & Hne & Hr).
      split; [by eapply Hpages|]. split; [done|]. split; [done|]. split; [|done].
      eapply Forall_impl; [exact Hreq|]. intros c [-> _] Heq.
      by apply (teams_not_chats chatId).
    + destruct Hres as [-> Hr]. split; [constructor | done].
  - destruct Hres as (Hreq & Hne & Hr).
    split; [by eapply Hpages|]. split; [done|]. split; [done|]. split; [|done].
    eapply Forall_impl; [exact Hreq|]. intros c [-> _]. apply teams_not_chats.
Qed.

(** C8, as the code has it: the strategy selector rounds the elapsed days up
    to a whole number ([k] is that number exactly when the elapsed time is
    more than [k - 1] and at most [k] days) and uses the single-page fetch
    exactly when that number is at most 3, that is when [dateFrom] lies at
    most three times 24 hours before [now]; otherwise, also for an invalid
    [dateFrom], it uses the paginated fetcher.  The single-page fetch makes
    one page request without a page token after its probe and returns the
    in-range records of that page in reverse order: in ascending order of
    creation time, the page listing its records newest first. *)
Theorem strategy_selection (w : World) (now : Z) (chatId : string)
    (dateFrom dateTo : Date) :
  (forall from k, daysDifference (Some now) (Some from) = Some k
                  <-> (k - 1) * msPerDay < now - from <= k * msPerDay) /\
  (isRecent (Some now) dateFrom = true
   <-> exists from, dateFrom = Some from /\ now - from <= 3 * msPerDay) /\
  fetchChatMessagesSmart platform_get now chatId dateFrom dateTo (start w)
  = (if isRecent (Some now) dateFrom
     then fetchChatMessagesSimple platform_get chatId dateFrom dateTo (start w)
     else fetchChatMessagesEnhanced platform_get chatId dateFrom dateTo (start w)) /\
  (forall endpoint msgs,
     (fetchChatMessagesSimple platform_get chatId dateFrom dateTo (start w)).1
       = inr msgs ->
     resolveProbe chatId
       (platform_get (teamsEndpoint chatId) probeQuery w).1 = inr endpoint ->
     exists probe c,
       calls (fetchChatMessagesSimple platform_get chatId dateFrom dateTo (start w)).2
         = [probe; c] /\
       pageRequest endpoint c /\ pageToken (call_qs c) = None /\
       msgs = reverse (filter (fun m => inRange dateFrom dateTo m = true)
                              (callRecords c)) /\
       (StronglySorted notOlder (callRecords c) -> StronglySorted timeLe msgs)).
Proof.
  split; [|split; [|split]].
  - intros from k. unfold daysDifference. simpl. split.
    + intros [= <-]. split.
      * apply Z.nle_gt. rewrite <- ceilDiv_le. lia.
      * apply ceilDiv_le. lia.
    + intros [Hlo Hhi]. f_equal.
      apply ceilDiv_le in Hhi. apply Z.nle_gt in Hlo. rewrite <- ceilDiv_le in Hlo. lia.
  - apply isRecent_spec.
  - reflexivity.
  - intros endpoint msgs Hres Hprobe.
    destruct (fetchChatMessagesSimple _ _ _ _ _) as [r e'] eqn:Hrun.
    simpl in Hres. subst r. pose proof Hrun as Hrun0.
    apply fetchChatMessagesSimple_inv in Hrun as (probe & _ & _ & Hrun).
    destruct Hrun as [(err & _ & ? & _) | (endpoint0 & c & Hres & Hc & Hreq & Htok & Hr)];
      [done|].
    assert (endpoint0 = endpoint) as ->.
    { unfold fetchChatMessagesSimple in Hrun0.
      destruct (platform_get (teamsEndpoint chatId) probeQuery w) as [probed w1] eqn:Hp.
      rewrite (discoverEndpoint_run _ chatId (start w) probed w1 Hp) in Hrun0.
      simpl in Hprobe. rewrite Hprobe in Hrun0.
      assert (calls e' = [mkCall (teamsEndpoint chatId) probeQuery probed;
                          mkCall endpoint {| recordCount := 250; pageToken := None |}
                            (platform_get endpoint
                               {| recordCount := 250; pageToken := None |} w1).1])
        as Hc'.
      { unfold get in Hrun0. simpl in Hrun0.
        destruct (platform_get endpoint _ w1) as [out w2].
        destruct out as [|resp]; [|destruct (json resp)]; by simplify_eq. }
      rewrite Hc in Hc'. simpl in Hc'. injection Hc' as Hprobe' Hc'.
      destruct Hreq as [<- _]. by rewrite Hc'. }
    assert (Hmsgs : msgs = reverse (filter (fun m => inRange dateFrom dateTo m = true)
                                           (callRecords c))).
    { destruct (callFailure c); by simplify_eq. }
    exists probe, c. simpl.
    split; [done|]. split; [done|]. split; [done|]. split; [done|].
    intros Hsorted. rewrite Hmsgs.
    apply (StronglySorted_reverse_flip notOlder).
    by apply StronglySorted_filter.
Qed.

End SmartClaims.

(** A chat that the 'teams' endpoint does not know is read from the 'chats'
    endpoint, by either strategy. *)
Example chats_fallback_sample :
  let unknownToTeams := [inl Sample.notFound; Sample.page [Sample.post "b" 15] None] in
  let recent := fetchChatMessagesSmart Sample.scripted (10 + Sample.day) Sample.chat
                  (Some 10) (Some 20) (start unknownToTeams) in
  let older := fetchChatMessagesSmart Sample.scripted (10 + 5 * Sample.day) Sample.chat
                 (Some 10) (Some 20) (start unknownToTeams) in
  recent.1 = inr [Sample.post "b" 15] /\
  map call_endpoint (calls recent.2)
    = [teamsEndpoint Sample.chat; chatsEndpoint Sample.chat] /\
  older.1 = inr [Sample.post "b" 15] /\
  map call_endpoint (calls older.2)
    = [teamsEndpoint Sample.chat; chatsEndpoint Sample.chat].
Proof. by vm_compute. Qed.

Lemma strategy_selection_witness :
  exists probe c,
    calls (fetchChatMessagesSimple Sample.scripted Sample.chat (Some 10) (Some 20)
             (start Sample.feed)).2 = [probe; c] /\
    pageRequest (teamsEndpoint Sample.chat) c /\ pageToken (call_qs c) = None /\
    [Sample.post "a" 12; Sample.post "b" 15]
    = reverse (filter (fun m => inRange (Some 10) (Some 20) m = true) (callRecords c)) /\
    StronglySorted notOlder (callRecords c) /\
    StronglySorted timeLe [Sample.post "a" 12; Sample.post "b" 15].
Proof.
  destruct (strategy_selection Sample.scripted Sample.feed (10 + Sample.day)
              Sample.chat (Some 10) (Some 20)) as (_ & _ & _ & Hsimple).
  destruct (Hsimple (teamsEndpoint Sample.chat)
              [Sample.post "a" 12; Sample.post "b" 15] eq_refl eq_refl)
    as (probe & c & Hcalls & Hreq & Htok & Hmsgs & Hsorted).
  assert (Hpage : StronglySorted notOlder (callRecords c)).
  { vm_compute in Hcalls. injection Hcalls as _ <-.
    repeat constructor. }
  exists probe, c. repeat split; try done; try apply Hreq.
  by apply Hsorted.
Defined.

(** C8, as worded: three and a half days after [dateFrom] three whole days
    have elapsed, yet the selector does not use the single-page fetch: it
    walks two pages with the paginated fetcher. *)
Lemma strategy_whole_days_counterexample :
  let now := 10 + 3 * Sample.day + Sample.day / 2 in
  let smart := fetchChatMessagesSmart Sample.scripted now Sample.chat
                 (Some 10) (Some 20) (start Sample.feed) in
  let simple := fetchChatMessagesSimple Sample.scripted Sample.chat
                  (Some 10) (Some 20) (start Sample.feed) in
  elapsedWholeDays now 10 = 3 /\
  ~ (elapsedWholeDays now 10 <= 3 -> smart = simple) /\
  smart = fetchChatMessagesEnhanced Sample.scripted Sample.chat
            (Some 10) (Some 20) (start Sample.feed) /\
  length (calls smart.2) = 3%nat /\
  length (calls simple.2) = 2%nat.
Proof.
  cbv zeta. split; [reflexivity|]. split; [|split; [reflexivity|split; reflexivity]].
  intros H.
  assert (Hle : elapsedWholeDays (10 + 3 * Sample.day + Sample.day / 2) 10 <= 3)
    by (by vm_compute).
  apply H in Hle. apply (f_equal (fun r => length (calls r.2))) in Hle.
  vm_compute in Hle. discriminate.
Qed.

(** ** The retry loop *)

Section RetryClaims.

Context {Service : Type}.
Variable generateContent : string -> Service -> (JsError + string) * Service.

Lemma attempt_spec (prompt : string) (g g1 : Gen Service) (out : JsError + string) :
  attempt generateContent prompt g = (out, g1) ->
  generateContent prompt (service g) = (out, service g1) /\
  events g1 = events g ++ [Called prompt out].
Proof.
  unfold attempt. destruct (generateContent prompt (service g)) as [o s].
  by intros [= <- <-].
Qed.


(** As many transient failures as [retries]. *)
Lemma retryLoop_overloaded (retries : nat) (delay : Z) (prompt : string)
    (g : Gen Service) (errs : list JsError) :
  length errs = S retries ->
  Forall transient errs ->
  answers generateContent (map inl errs) prompt (service g) ->
  exists g',
    retryLoop generateContent (S retries) delay prompt g = (inl overloaded, g') /\
    callsOf (events g')
    = callsOf (events g) ++ map (fun e => (prompt, inl e)) errs /\
    waitsOf (events g') = waitsOf (events g) ++ backoffs delay retries.
Proof.
  revert retries delay g.
  induction errs as [|error errs IH]; intros retries delay g Hlen Htr Hans;
    [done|].
  simpl in *. destruct Hans as [Hout Hans].
  apply Forall_cons in Htr as [Herr Htr].
  destruct (attempt generateContent prompt g) as [out g1] eqn:Hatt.
  apply attempt_spec in Hatt as [Hgen Hev]. rewrite Hgen in Hout, Hans.
  simpl in Hout, Hans. subst out. unfold transient in Herr. rewrite Herr.
  destruct retries as [|retries].
  - destruct errs; [|done]. exists g1. split; [done|].
    unfold callsOf, waitsOf. rewrite Hev, !omap_app. simpl.
    by rewrite !app_nil_r.
  - set (g2 := emit (Waited delay) (emit (Notified (S retries) delay) g1)).
    destruct (IH retries (delay * 2) g2) as (g' & Hrun & Hcalls & Hwaits);
      [lia | done | done |].
    exists g'. split; [done|].
    rewrite Hcalls, Hwaits. unfold callsOf, waitsOf, g2, emit. simpl.
    rewrite Hev, !omap_app. simpl. rewrite !app_nil_r, <- !app_assoc. done.
Qed.


(** C5: when the first three calls all fail with the transient-overload
    signal, [summarizeConversations] makes exactly these three calls and
    throws the [APIError] of status 503. *)
Theorem retry_cap_overloaded (s : Service) (prompt : string) (e1 e2 e3 : JsError) :
  transient e1 -> transient e2 -> transient e3 ->
  answers generateContent [inl e1; inl e2; inl e3] prompt s ->
  exists g',
    summarizeConversations generateContent prompt (fresh s)
    = (inl (mkAPIError "Gemini API is overloaded after multiple retries."
                       (Some 503) "Gemini"), g') /\
    callsOf (events g') = [(prompt, inl e1); (prompt, inl e2); (prompt, inl e3)] /\
    waitsOf (events g') = [2000; 4000].
Proof.
  intros H1 H2 H3 Hans. unfold summarizeConversations.
  destruct (retryLoop_overloaded 2 2000 prompt (fresh s) [e1; e2; e3])
    as (g' & Hrun & Hcalls & Hwaits); [done | by repeat constructor | done |].
  by exists g'.
Qed.

End RetryClaims.


Lemma retry_cap_overloaded_witness :
  exists g',
    summarizeConversations Sample.scriptedModel "logs"
      (fresh [inl Sample.busy; inl Sample.busy; inl Sample.busy; inr "summary"])
    = (inl (mkAPIError "Gemini API is overloaded after multiple retries."
                       (Some 503) "Gemini"), g') /\
    callsOf (events g')
    = [("logs", inl Sample.busy); ("logs", inl Sample.busy); ("logs", inl Sample.busy)] /\
    waitsOf (events g') = [2000; 4000].
Proof.
  apply (retry_cap_overloaded Sample.scriptedModel
           [inl Sample.busy; inl Sample.busy; inl Sample.busy; inr "summary"] "logs"
           Sample.busy Sample.busy Sample.busy);
    try reflexivity.
  simpl. auto.
Defined.


(** ** The timer and the metrics table *)

Section DiagnosticsClaims.

Import Diagnostics.



Lemma recordApiCall_lookup {E : Type} (service : string) (duration : Z)
    (error : option E) (this : DiagnosticsManager) :
  apiCallStats (recordApiCall service duration error this) !! service
  = match apiCallStats this !! service with
    | Some s => Some (recorded duration error s)
    | None =>
        if inherited service then None
        else Some (recorded duration error zeroStats)
    end.
Proof.
  unfold recordApiCall. simpl. rewrite lookup_alter_eq.
  destruct (apiCallStats this !! service) as [s|] eqn:Hs; simpl.
  - by rewrite Hs.
  - destruct (inherited service); [by rewrite Hs|].
    by rewrite lookup_insert_eq.
Qed.

Lemma recordApiCall_lookup_ne {E : Type} (service other : string) (duration : Z)
    (error : option E) (this : DiagnosticsManager) :
  service <> other ->
  apiCallStats (recordApiCall service duration error this) !! other
  = apiCallStats this !! other.
Proof.
  intros Hne. unfold recordApiCall. simpl. rewrite lookup_alter_ne by done.
  destruct (apiCallStats this !! service); [done|].
  destruct (inherited service); [done|].
  by rewrite lookup_insert_ne.
Qed.








(** C9, as the code behaves: the duration a timer reports is the reading of
    [performance.now()] at its end minus the [Date.now()] reading taken when
    the manager was constructed; the reading taken by [startTimer] plays no
    part.  A timer started at 1000 and ended at 1250 on a manager constructed
    at 1700000000000 reports -1699999998750, not 250. *)
Theorem timer_duration_ignores_timer_start :
  (forall this operation t0 t1,
     duration (end_ (startTimer this operation t0) t1) = t1 - startTime this) /\
  let this := constructor 1700000000000 in
  let timer := startTimer this "generate-report" 1000 in
  timer_startTime timer = 1000 /\
  duration (end_ timer 1250) = -1699999998750 /\
  duration (end_ timer 1250) <> 1250 - timer_startTime timer.
Proof. split; [reflexivity|]. cbv zeta. by repeat split. Qed.

End DiagnosticsClaims.


(** * Further properties of the fetchers *)

Section FetchCoverage.

Context {World : Type}.
Variable platform_get : string -> Query -> World -> (JsError + Response) * World.

Lemma truthyToken_Some (tok : option string) (s : string) :
  truthyToken tok = Some s <-> tok = Some s /\ s <> EmptyString.
Proof.
  unfold truthyToken. destruct tok as [t|]; [|split; [done | by intros [? _]]].
  destruct (decide (t = EmptyString)) as [->|Hne]; split.
  - done.
  - intros [[= <-] ?]. done.
  - intros [= <-]. done.
  - by intros [[= <-] _].
Qed.

Lemma paginate_follows (budget : nat) (endpoint : string) (dateFrom dateTo : Date)
    (tok : option string) (n : nat) (acc : list Message) (e e' : Env World)
    (r : APIError + nat * list Message) :
  paginate platform_get budget endpoint dateFrom dateTo tok n acc false e = (r, e') ->
  exists new,
    calls e' = calls e ++ new /\ (length new <= budget)%nat /\ followsTokens tok new.
Proof.
  revert tok n acc e.
  induction budget as [|budget IH]; intros tok n acc e; simpl.
  - intros [= <- <-]. exists []. by rewrite app_nil_r.
  - destruct (get platform_get endpoint _ e) as [out e1] eqn:Hget.
    apply get_spec in Hget as (Hcalls & _ & _).
    set (c := mkCall endpoint {| recordCount := recordsPerPage; pageToken := tok |} out)
      in Hcalls.
    assert (Hone : calls e1 = calls e ++ [c] /\ (length [c] <= S budget)%nat /\
                   followsTokens tok [c]).
    { split; [done|]. split; [simpl; lia|]. simpl. auto. }
    destruct out as [error|resp]; [intros [= <- <-]; eauto|].
    destruct (json resp) as [error|body] eqn:Hjson; [intros [= <- <-]; eauto|].
    destruct (decide _); [intros [= <- <-]; eauto|].
    destruct (classifyPage _ _ _ _) as [acc' found'].
    destruct found'; [intros [= <- <-]; eauto|].
    destruct (truthyToken (nextPageToken body)) as [tok'|] eqn:Htok;
      [|intros [= <- <-]; eauto].
    intros (new & Hc' & Hlen & Hfol)%IH.
    exists (c :: new). split; [by rewrite Hc', Hcalls, <- app_assoc|].
    split; [simpl; lia|]. simpl. split; [done|].
    apply truthyToken_Some in Htok as [Htok Hne].
    right. exists body, tok'. split; [|done].
    unfold callBody. simpl. by rewrite Hjson.
Qed.

(** X1: a fetch makes at most 21 requests, the probe and [maxPages] page
    requests, whatever the service answers. *)
Theorem fetchChatMessagesEnhanced_request_bound (w : World) (chatId : string)
    (from to : Z) :
  (length (calls (fetchChatMessagesEnhanced platform_get chatId (Some from) (Some to)
                    (start w)).2) <= 21)%nat.
Proof.
  destruct (fetchChatMessagesEnhanced _ _ _ _ _) as [r e'] eqn:Hrun. simpl.
  apply fetchChatMessagesEnhanced_inv in Hrun as (probe & _ & _ & Hrun).
  destruct Hrun as [(thrown & _ & -> & _)
                   | (endpoint & e1 & pr & e2 & _ & Hc1 & _ & Hp & -> & _)].
  - simpl. lia.
  - apply paginate_follows in Hp as (new & -> & Hlen & _).
    rewrite Hc1, !length_app. simpl. unfold maxPages in Hlen. lia.
Qed.

(** X2: the page requests of a fetch follow the cursor: the first carries no
    page token, and every later one carries the [nextPageToken] of the page
    delivered to the request before it, a token that is present and not
    empty. *)
Theorem fetchChatMessagesEnhanced_follows_tokens (w : World) (chatId : string)
    (from to : Z) (probe : Call) (reqs : list Call) :
  calls (fetchChatMessagesEnhanced platform_get chatId (Some from) (Some to) (start w)).2
    = probe :: reqs ->
  followsTokens None reqs.
Proof.
  destruct (fetchChatMessagesEnhanced _ _ _ _ _) as [r e'] eqn:Hrun. simpl.
  apply fetchChatMessagesEnhanced_inv in Hrun as (probe0 & _ & _ & Hrun).
  destruct Hrun as [(thrown & _ & -> & _)
                   | (endpoint & e1 & pr & e2 & _ & Hc1 & _ & Hp & -> & _)].
  - simpl. by intros [= _ <-].
  - apply paginate_follows in Hp as (new & -> & _ & Hfol).
    rewrite Hc1. simpl. by intros [= _ <-].
Qed.

(** X3: what a fetch returns is, up to order, exactly the in-range records
    of the pages it was served: none is dropped and none is duplicated. *)
Theorem fetchChatMessagesEnhanced_returns_collected (w : World) (chatId : string)
    (from to : Z) (probe : Call) (reqs : list Call)
    (msgs : list Message) :
  (fetchChatMessagesEnhanced platform_get chatId (Some from) (Some to) (start w)).1
    = inr msgs ->
  calls (fetchChatMessagesEnhanced platform_get chatId (Some from) (Some to) (start w)).2
    = probe :: reqs ->
  msgs ≡ₚ collected (Some from) (Some to) reqs.
Proof.
  destruct (fetchChatMessagesEnhanced _ _ _ _ _) as [r e'] eqn:Hrun. simpl.
  intros -> He'.
  apply fetchChatMessagesEnhanced_inv in Hrun as (probe0 & _ & _ & Hrun).
  destruct Hrun as [(thrown & ? & _)
                   | (endpoint & e1 & pr & e2 & _ & Hc1 & _ & Hp & Hc & Hr)]; [done|].
  apply paginate_trace in Hp as (pre & last & Hc2 & _ & _ & _ & Hcases).
  assert (Hreqs : reqs = pre ++ last).
  { rewrite He' in Hc. rewrite Hc2, Hc1 in Hc. simpl in Hc. by injection Hc. }
  subst reqs.
  assert (Hpr : exists k, pr = inr (k, collected (Some from) (Some to) (pre ++ last))).
  { destruct Hcases as [(-> & _ & ->) | (c & -> & _ & Hc0)].
    - rewrite app_nil_r. eauto.
    - destruct Hc0 as [(error & _ & ->) | [(_ & Hnil & ->) | (_ & _ & ->)]].
      + by destruct Hr.
      + eexists. do 2 f_equal. simpl. rewrite collected_app.
        unfold collected at 3. simpl. rewrite Hnil. simpl. by rewrite app_nil_r.
      + eauto. }
  destruct Hpr as [k ->]. destruct Hr as [[= ->] _].
  apply sortMessages_Permutation.
Qed.

End FetchCoverage.

Lemma fetchChatMessagesEnhanced_follows_tokens_witness :
  followsTokens None [Sample.firstCall; Sample.secondCall].
Proof.
  apply (fetchChatMessagesEnhanced_follows_tokens Sample.scripted Sample.feed
           Sample.chat 10 20 Sample.probeCall).
  vm_compute. reflexivity.
Defined.

Lemma fetchChatMessagesEnhanced_returns_collected_witness :
  [Sample.post "z" 11; Sample.post "a" 12; Sample.post "b" 15]
  ≡ₚ collected (Some 10) (Some 20) [Sample.firstCall; Sample.secondCall].
Proof.
  apply (fetchChatMessagesEnhanced_returns_collected Sample.scripted Sample.feed
           Sample.chat 10 20 Sample.probeCall);
    vm_compute; reflexivity.
Defined.

Lemma insertMessage_last (x : Message) (l : list Message) :
  Forall (fun y => strictlyNewer x y) l ->
  Forall (fun y => is_Some (creationTime y)) l ->
  insertMessage x l = l ++ [x].
Proof.
  induction 1 as [|y l Hy Hl IH]; intros Hd; [done|]. simpl.
  apply Forall_cons in Hd as [_ Hd].
  unfold strictlyNewer in Hy. apply lt_spec in Hy as (ty & tx & Hty & Htx & Hlt).
  unfold notAfter, compareCreationTime. rewrite Hty, Htx. simpl.
  rewrite (proj2 (Z.leb_gt _ _)) by lia. by rewrite IH.
Qed.

(** On a list that is strictly newest-first the sort is a reversal. *)
Lemma sortMessages_strictly_newest_first (l : list Message) :
  StronglySorted strictlyNewer l -> sortMessages l = reverse l.
Proof.
  induction 1 as [|x l Hs IH Hx]; [done|].
  simpl. rewrite IH, reverse_cons. apply insertMessage_last.
  - by apply Forall_reverse.
  - apply Forall_reverse. eapply Forall_impl; [exact Hx|].
    intros y (ty & tx & Hty & _)%lt_spec. by eexists.
Qed.

Section StrategyCoverage.

Context {World : Type}.
Variable platform_get : string -> Query -> World -> (JsError + Response) * World.

Lemma fetchChatMessagesEnhanced_inRange (chatId : string) (dateFrom dateTo : Date)
    (e : Env World) (msgs : list Message) :
  (fetchChatMessagesEnhanced platform_get chatId dateFrom dateTo e).1 = inr msgs ->
  Forall (fun m => inRange dateFrom dateTo m = true) msgs.
Proof.
  destruct (fetchChatMessagesEnhanced _ _ _ _ _) as [r e'] eqn:Hrun. simpl.
  intros ->.
  apply fetchChatMessagesEnhanced_inv in Hrun as (probe & _ & _ & Hrun).
  destruct Hrun as [(thrown & ? & _)
                   | (endpoint & e1 & pr & e2 & _ & _ & _ & Hp & _ & Hr)]; [done|].
  destruct pr as [err|[k all]]; [by destruct Hr as [? _]|].
  destruct Hr as [[= ->] _].
  apply paginate_result_inRange in Hp.
  by rewrite sortMessages_Permutation.
Qed.

Lemma fetchChatMessagesSimple_result (chatId : string) (dateFrom dateTo : Date)
    (e : Env World) (msgs : list Message) :
  (fetchChatMessagesSimple platform_get chatId dateFrom dateTo e).1 = inr msgs ->
  exists probe c,
    calls (fetchChatMessagesSimple platform_get chatId dateFrom dateTo e).2
      = calls e ++ [probe; c] /\
    msgs = reverse (filter (fun m => inRange dateFrom dateTo m = true) (callRecords c)).
Proof.
  destruct (fetchChatMessagesSimple _ _ _ _ _) as [r e'] eqn:Hrun. simpl.
  intros ->.
  apply fetchChatMessagesSimple_inv in Hrun as (probe & _ & _ & Hrun).
  destruct Hrun as [(err & _ & ? & _) | (endpoint & c & _ & Hc & _ & _ & Hr)]; [done|].
  exists probe, c. split; [done|].
  destruct (callFailure c); by simplify_eq.
Qed.

(** X4: whichever strategy [fetchChatMessagesSmart] picks, every message it
    returns has its creation time in the window, both ends included. *)
Theorem fetchChatMessagesSmart_window (w : World) (now : Z) (chatId : string)
    (from to : Z) (msgs : list Message) :
  (fetchChatMessagesSmart platform_get now chatId (Some from) (Some to) (start w)).1
    = inr msgs ->
  Forall (withinWindow from to) msgs.
Proof.
  unfold fetchChatMessagesSmart. destruct (isRecent _ _).
  - intros (probe & c & _ & ->)%fetchChatMessagesSimple_result.
    apply Forall_reverse, Forall_forall.
    intros m [Hm _]%list_elem_of_filter. by apply inRange_spec.
  - intros Hall%fetchChatMessagesEnhanced_inRange.
    eapply Forall_impl; [exact Hall|]. intros m. by rewrite inRange_spec.
Qed.

(** X5: the single-page fetch returns its messages oldest first whenever
    the page it was served lists its records newest first. *)
Theorem fetchChatMessagesSimple_ascending (w : World) (chatId : string)
    (dateFrom dateTo : Date) (probe c : Call) (msgs : list Message) :
  (fetchChatMessagesSimple platform_get chatId dateFrom dateTo (start w)).1
    = inr msgs ->
  calls (fetchChatMessagesSimple platform_get chatId dateFrom dateTo (start w)).2
    = [probe; c] ->
  StronglySorted notOlder (callRecords c) ->
  StronglySorted timeLe msgs.
Proof.
  intros (probe0 & c0 & Hc & ->)%fetchChatMessagesSimple_result Hcalls Hsorted.
  rewrite Hcalls in Hc. simpl in Hc. injection Hc as _ <-.
  apply (StronglySorted_reverse_flip notOlder).
  by apply StronglySorted_filter.
Qed.

(** X6: when the most recent page lists its records strictly newest first
    and already closes the walk (it is empty, holds a record older than the
    window, or has no continuation token), the single-page fetch and the
    paginated fetch return the same list. *)
Theorem strategies_agree_on_closing_page (w w1 w2 : World) (chatId : string)
    (from to : Z) (probed : JsError + Response) (endpoint : string)
    (resp : Response) (body : PageJson) :
  platform_get (teamsEndpoint chatId) probeQuery w = (probed, w1) ->
  resolveProbe chatId probed = inr endpoint ->
  platform_get endpoint {| recordCount := 250; pageToken := None |} w1
    = (inr resp, w2) ->
  json resp = inr body ->
  StronglySorted strictlyNewer (bodyRecords body) ->
  ~ pageContinues (Some from) body ->
  (fetchChatMessagesSimple platform_get chatId (Some from) (Some to) (start w)).1
  = (fetchChatMessagesEnhanced platform_get chatId (Some from) (Some to) (start w)).1.
Proof.
  intros Hprobe Hres Hpage Hjson Hsorted Hclose.
  unfold fetchChatMessagesSimple, fetchChatMessagesEnhanced.
  rewrite (discoverEndpoint_run _ chatId (start w) probed w1 Hprobe), Hres.
  change maxPages with (S 19). cbn [paginate JsDate.valid andb].
  unfold get at 1 2. cbn [world]. unfold recordsPerPage. rewrite Hpage, Hjson.
  unfold pageContinues, bodyRecords in Hclose. unfold bodyRecords in Hsorted.
  set (recs := default [] (records body)) in *.
  assert (Hsort : sortMessages (filter (fun m => inRange (Some from) (Some to) m = true) recs)
                  = reverse (filter (fun m => inRange (Some from) (Some to) m = true) recs)).
  { by apply sortMessages_strictly_newest_first, StronglySorted_filter. }
  destruct (decide (length recs = 0%nat)) as [Hlen|Hlen].
  { apply nil_length_inv in Hlen. by rewrite Hlen. }
  destruct (classifyPage (Some from) (Some to) ([], false) recs) as [acc' found'] eqn:Hclass.
  assert (Hacc' : acc' = filter (fun m => inRange (Some from) (Some to) m = true) recs).
  { change acc' with ((acc', found').1). by rewrite <- Hclass, classifyPage_fst. }
  assert (Hfound' : found' = existsb (olderThanRange (Some from)) recs).
  { change found' with ((acc', found').2). by rewrite <- Hclass, classifyPage_snd. }
  destruct found' eqn:Hf.
  { simpl. by rewrite Hacc', Hsort. }
  destruct (truthyToken (nextPageToken body)) eqn:Htok.
  - exfalso. apply Hclose. split; [|split].
    + intros Hnil. by rewrite Hnil in Hlen.
    + by apply existsb_older_false.
    + done.
  - simpl. by rewrite Hacc', Hsort.
Qed.

End StrategyCoverage.

Lemma fetchChatMessagesSmart_window_witness :
  Forall (withinWindow 10 20) [Sample.post "a" 12; Sample.post "b" 15].
Proof.
  apply (fetchChatMessagesSmart_window Sample.scripted Sample.feed (10 + Sample.day)
           Sample.chat 10 20).
  vm_compute. reflexivity.
Defined.

Lemma fetchChatMessagesSimple_ascending_witness :
  StronglySorted timeLe [Sample.post "a" 12; Sample.post "b" 15].
Proof.
  apply (fetchChatMessagesSimple_ascending Sample.scripted Sample.feed Sample.chat
           (Some 10) (Some 20) Sample.probeCall Sample.firstCall).
  - vm_compute. reflexivity.
  - vm_compute. reflexivity.
  - repeat constructor.
Defined.

Lemma strategies_agree_on_closing_page_witness :
  (fetchChatMessagesSimple Sample.scripted Sample.chat (Some 10) (Some 40)
     (start [Sample.ok; Sample.page [Sample.post "c" 30; Sample.post "b" 15;
                                     Sample.post "y" 5] (Some "t1")])).1
  = (fetchChatMessagesEnhanced Sample.scripted Sample.chat (Some 10) (Some 40)
       (start [Sample.ok; Sample.page [Sample.post "c" 30; Sample.post "b" 15;
                                       Sample.post "y" 5] (Some "t1")])).1.
Proof.
  eapply (strategies_agree_on_closing_page Sample.scripted _ _ _ Sample.chat
            10 40 Sample.ok (teamsEndpoint Sample.chat)).
  - reflexivity.
  - reflexivity.
  - reflexivity.
  - reflexivity.
  - repeat constructor.
  - intros (_ & Hold & _). simpl in Hold.
    apply Forall_cons in Hold as [_ Hold]. apply Forall_cons in Hold as [_ Hold].
    by apply Forall_cons in Hold as [Hold _].
Defined.

(** * Further properties of the retry loop *)

Section RetryCoverage.

Context {Service : Type}.
Variable generateContent : string -> Service -> (JsError + string) * Service.

(** Fewer transient failures than [retries], then a failure of another
    kind. *)
Lemma retryLoop_other_failure (retries : nat) (delay : Z) (prompt : string)
    (g : Gen Service) (errs : list JsError) (error : JsError) :
  (length errs < retries)%nat ->
  Forall transient errs ->
  includes "503" (message error) = false ->
  answers generateContent (map inl errs ++ [inl error]) prompt (service g) ->
  exists g',
    retryLoop generateContent retries delay prompt g
    = (inl (mkAPIError ("Gemini API error: " +:+ message error)
                       (status error) "Gemini"), g') /\
    callsOf (events g')
    = callsOf (events g) ++ map (fun e => (prompt, inl e)) (errs ++ [error]) /\
    waitsOf (events g') = waitsOf (events g) ++ backoffs delay (length errs).
Proof.
  revert retries delay g.
  induction errs as [|err errs IH]; intros retries delay g Hlen Htr Hother Hans.
  - destruct retries as [|retries]; [simpl in Hlen; lia|]. simpl in *.
    destruct Hans as [Hout _].
    destruct (attempt generateContent prompt g) as [out g1] eqn:Hatt.
    apply attempt_spec in Hatt as [Hgen Hev]. rewrite Hgen in Hout. simpl in Hout.
    subst out. rewrite Hother. exists g1. split; [done|].
    unfold callsOf, waitsOf. rewrite Hev, !omap_app. simpl.
    by rewrite app_nil_r.
  - destruct retries as [|retries]; [simpl in Hlen; lia|]. simpl in *.
    destruct Hans as [Hout Hans].
    apply Forall_cons in Htr as [Herr Htr].
    destruct (attempt generateContent prompt g) as [out g1] eqn:Hatt.
    apply attempt_spec in Hatt as [Hgen Hev]. rewrite Hgen in Hout, Hans.
    simpl in Hout, Hans. subst out. unfold transient in Herr. rewrite Herr.
    destruct retries as [|retries]; [lia|].
    set (g2 := emit (Waited delay) (emit (Notified (S retries) delay) g1)).
    destruct (IH (S retries) (delay * 2) g2) as (g' & Hrun & Hcalls & Hwaits);
      [lia | done | done | done |].
    exists g'. split; [done|].
    rewrite Hcalls, Hwaits. unfold callsOf, waitsOf, g2, emit. simpl.
    rewrite Hev, !omap_app. simpl. rewrite !app_nil_r, <- !app_assoc. done.
Qed.


(** X7: a failure without the transient-overload signal is never retried:
    after at most two transient failures, the first other failure ends the
    run with [APIError('Gemini API error: ' + message, error.status,
    'Gemini')], with no call and no wait after it. *)
Theorem non_transient_failure_not_retried (s : Service) (prompt : string)
    (errs : list JsError) (error : JsError) :
  (length errs <= 2)%nat ->
  Forall transient errs ->
  includes "503" (message error) = false ->
  answers generateContent (map inl errs ++ [inl error]) prompt s ->
  exists g',
    summarizeConversations generateContent prompt (fresh s)
    = (inl (mkAPIError ("Gemini API error: " +:+ message error)
                       (status error) "Gemini"), g') /\
    callsOf (events g') = map (fun e => (prompt, inl e)) (errs ++ [error]) /\
    waitsOf (events g') = take (length errs) [2000; 4000].
Proof.
  intros Hlen Htr Hother Hans. unfold summarizeConversations.
  destruct (retryLoop_other_failure 3 2000 prompt (fresh s) errs error)
    as (g' & Hrun & Hcalls & Hwaits); [lia | done | done | done |].
  exists g'. simpl in Hcalls, Hwaits. split; [done|]. split; [done|].
  rewrite Hwaits. by destruct errs as [|? [|? [|? ?]]]; [..|simpl in Hlen; lia].
Qed.


End RetryCoverage.

Lemma non_transient_failure_not_retried_witness :
  exists g',
    summarizeConversations Sample.scriptedModel "logs"
      (fresh [inl Sample.busy; inl Sample.serverError; inr "summary"])
    = (inl (mkAPIError "Gemini API error: Internal error" (Some 500) "Gemini"), g') /\
    callsOf (events g') = [("logs", inl Sample.busy); ("logs", inl Sample.serverError)] /\
    waitsOf (events g') = [2000].
Proof.
  apply (non_transient_failure_not_retried Sample.scriptedModel
           [inl Sample.busy; inl Sample.serverError; inr "summary"] "logs"
           [Sample.busy] Sample.serverError).
  - simpl. lia.
  - repeat constructor.
  - reflexivity.
  - simpl. auto.
Defined.

(** * Further properties of the metrics table *)

Section TallyFacts.

Import Diagnostics Tally.

Lemma count_snoc (test : Op -> bool) (ops : list Op) (op : Op) :
  count test (ops ++ [op]) = count test ops + (if test op then 1 else 0).
Proof.
  unfold count. rewrite filter_app, length_app, filter_cons, filter_nil.
  destruct (test op); [rewrite decide_True by done | rewrite decide_False by done];
    simpl; lia.
Qed.

Lemma count_nonneg (test : Op -> bool) (ops : list Op) : 0 <= count test ops.
Proof. unfold count. lia. Qed.

Lemma count_failed_le (service : string) (ops : list Op) :
  count (isFailedCallTo service) ops <= count (isCallTo service) ops.
Proof.
  induction ops as [|op ops IH] using rev_ind; [done|].
  rewrite !count_snoc.
  destruct op as [error|svc duration [error|]]; simpl; try lia.
  destruct (bool_decide (svc = service)); lia.
Qed.

Lemma run_snoc (ops : list Op) (op : Op) (this : DiagnosticsManager) :
  run (ops ++ [op]) this = step (run ops this) op.
Proof. unfold run. by rewrite foldl_app. Qed.

(** Counting up to [n] and once more is counting up to [n + 1], also when
    the counter has stopped. *)
Lemma increment_min (n : Z) :
  increment (Z.min n maxCounter) = Z.min (n + 1) maxCounter.
Proof.
  unfold increment. destruct (Z.ltb_spec (Z.min n maxCounter) maxCounter); lia.
Qed.

(** X9: the counters of the metrics table are exact tallies, up to the 2^53
    at which a counter stops.  After any sequence of [recordRequest] and
    [recordApiCall] calls on a new manager, [requestCount] and [errorCount]
    are the numbers of requests and of failed requests recorded; and for a
    service whose name is not that of a member of [Object.prototype], the
    entry holds the number of its calls and the number of those that
    failed, while a service that was never called has no entry, except
    'ringcentral' and 'gemini', which start at zero. *)
Theorem metrics_are_exact_tallies (dateNow : Z) (ops : list Op) (service : string) :
  inherited service = false ->
  requestCount (run ops (constructor dateNow))
    = Z.min (count isRequest ops) maxCounter /\
  errorCount (run ops (constructor dateNow))
    = Z.min (count isFailedRequest ops) maxCounter /\
  match apiCallStats (run ops (constructor dateNow)) !! service with
  | Some s =>
      calls s = Z.min (count (isCallTo service) ops) maxCounter /\
      errors s = Z.min (count (isFailedCallTo service) ops) maxCounter /\
      (count (isCallTo service) ops = 0 ->
       service = "ringcentral" \/ service = "gemini")
  | None =>
      count (isCallTo service) ops = 0 /\
      service <> "ringcentral" /\ service <> "gemini"
  end.
Proof.
  intros Hown.
  induction ops as [|op ops IH] using rev_ind.
  - split; [done|]. split; [done|].
    unfold run, constructor. cbn [foldl apiCallStats].
    rewrite !lookup_insert, lookup_empty.
    repeat case_decide; subst; repeat split; auto.
  - destruct IH as (Hreq & Herr & Hentry).
    pose proof (count_nonneg (isCallTo service) ops) as Hnn.
    pose proof (count_failed_le service ops) as Hfail.
    pose proof (count_nonneg (isFailedCallTo service) ops) as Hnnf.
    rewrite run_snoc, !count_snoc.
    destruct op as [error|svc duration error]; cbn [step].
    + change (apiCallStats (recordRequest error (run ops (constructor dateNow))))
        with (apiCallStats (run ops (constructor dateNow))).
      cbn [isCallTo isFailedCallTo]. rewrite !Z.add_0_r.
      split; [|split; [|done]].
      * cbn [recordRequest requestCount isRequest]. by rewrite Hreq, increment_min.
      * cbn [recordRequest errorCount]. destruct error; cbn [isFailedRequest].
        -- by rewrite Herr, increment_min.
        -- by rewrite Z.add_0_r.
    + cbn [isRequest isFailedRequest]. rewrite !Z.add_0_r.
      split; [done|]. split; [done|].
      destruct (decide (svc = service)) as [->|Hne].
      * rewrite recordApiCall_lookup, Hown.
        assert (Hcall : isCallTo service (RecordApiCall service duration error) = true)
          by (cbn; by rewrite bool_decide_eq_true_2).
        rewrite Hcall.
        assert (Hfailed : isFailedCallTo service (RecordApiCall service duration error)
                          = match error with Some _ => true | None => false end).
        { destruct error; cbn; [by rewrite bool_decide_eq_true_2 | done]. }
        rewrite Hfailed.
        destruct (apiCallStats (run ops (constructor dateNow)) !! service) as [s|].
        -- destruct Hentry as (Hcalls & Herrors & _). cbn [recorded calls errors].
           split; [by rewrite Hcalls, increment_min|]. split; [|lia].
           destruct error; [by rewrite Herrors, increment_min|].
           by rewrite Z.add_0_r.
        -- destruct Hentry as (Hzero & _). cbn [recorded calls errors zeroStats].
           assert (Hnone : count (isFailedCallTo service) ops = 0) by lia.
           rewrite Hzero, Hnone.
           split; [done|]. split; [by destruct error | lia].
      * rewrite recordApiCall_lookup_ne by done.
        assert (Hcall : isCallTo service (RecordApiCall svc duration error) = false)
          by (cbn; by rewrite bool_decide_eq_false_2).
        assert (Hfailed : isFailedCallTo service (RecordApiCall svc duration error)
                          = false).
        { destruct error; cbn; [by rewrite bool_decide_eq_false_2 | done]. }
        by rewrite Hcall, Hfailed, !Z.add_0_r.
Qed.

End TallyFacts.

Lemma metrics_are_exact_tallies_witness :
  Diagnostics.requestCount
    (Diagnostics.run
       [Diagnostics.RecordRequest None;
        Diagnostics.RecordApiCall "filesystem" 5 (Some Sample.refused);
        Diagnostics.RecordApiCall "filesystem" 7 None]
       (Diagnostics.constructor 0))
  = 1 /\
  Diagnostics.apiCallStats
    (Diagnostics.run
       [Diagnostics.RecordRequest None;
        Diagnostics.RecordApiCall "filesystem" 5 (Some Sample.refused);
        Diagnostics.RecordApiCall "filesystem" 7 None]
       (Diagnostics.constructor 0)) !! "filesystem"
  = Some {| Diagnostics.calls := 2; Diagnostics.errors := 1;
            Diagnostics.totalTime := 12 |}.
Proof.
  pose proof (metrics_are_exact_tallies 0
                [Diagnostics.RecordRequest None;
                 Diagnostics.RecordApiCall "filesystem" 5 (Some Sample.refused);
                 Diagnostics.RecordApiCall "filesystem" 7 None]
                "filesystem" eq_refl) as (Hreq & _ & _).
  split; [exact Hreq | vm_compute; reflexivity].
Defined.

(** * Properties of the logger *)

Lemma insertBy_Permutation {A : Type} (cmp : A -> A -> Z) (x : A) (l : list A) :
  insertBy cmp x l ≡ₚ x :: l.
Proof.
  induction l as [|y l IH]; simpl; [done|].
  destruct (cmp x y <=? 0); [done|].
  rewrite IH. apply Permutation_swap.
Qed.

Lemma sortBy_Permutation {A : Type} (cmp : A -> A -> Z) (l : list A) :
  sortBy cmp l ≡ₚ l.
Proof.
  induction l as [|x l IH]; simpl; [done|].
  by rewrite insertBy_Permutation, IH.
Qed.

(** A comparator that orders by a key sorts by that key. *)
Lemma sortBy_sorted {A : Type} (cmp : A -> A -> Z) (key : A -> Z) (l : list A) :
  (forall a b, cmp a b = key a - key b) ->
  StronglySorted (fun a b => key a <= key b) (sortBy cmp l).
Proof.
  intros Hcmp.
  induction l as [|x l IH]; simpl; [constructor|].
  induction IH as [|y l' Hs IH' Hy]; simpl; [repeat constructor|].
  rewrite Hcmp. destruct (key x - key y <=? 0) eqn:Hxy.
  - apply Z.leb_le in Hxy. constructor; [by constructor|].
    constructor; [lia|]. eapply Forall_impl; [exact Hy|]. simpl. lia.
  - apply Z.leb_gt in Hxy. constructor; [done|].
    rewrite insertBy_Permutation. constructor; [lia | done].
Qed.

Section LoggerFacts.

Import Logger.

Lemma levels_lookup (name : string) (n : Z) :
  levels !! name = Some n -> 0 <= n <= 4.
Proof.
  unfold levels. rewrite !lookup_insert, lookup_empty.
  repeat case_decide; intros [= <-]; lia.
Qed.

(** X11: with a known log level, errors are always logged, and logging
    respects severity: a message that is logged is still logged at every
    more verbose setting, and whenever a message is logged so is every more
    severe message. *)
Theorem shouldLog_respects_severity (memberLe : string -> string -> bool)
    (logLevel level : string) (n : Z) :
  levels !! logLevel = Some n ->
  shouldLog memberLe logLevel "error" = true /\
  (shouldLog memberLe logLevel level = true ->
   forall logLevel' n', levels !! logLevel' = Some n' -> n <= n' ->
     shouldLog memberLe logLevel' level = true) /\
  (shouldLog memberLe logLevel level = true ->
   forall level' k k', levels !! level = Some k -> levels !! level' = Some k' ->
     k' <= k -> shouldLog memberLe logLevel level' = true).
Proof.
  intros Hn. split; [|split].
  - unfold shouldLog, levelValue. rewrite Hn.
    change (levels !! "error") with (Some 0). apply Z.leb_le.
    by apply levels_lookup in Hn as [? _].
  - unfold shouldLog, levelValue. rewrite Hn.
    destruct (levels !! level) as [k|]; [|by destruct (inherited level)].
    intros Hk%Z.leb_le logLevel' n' -> Hle. apply Z.leb_le. lia.
  - unfold shouldLog, levelValue. rewrite Hn.
    intros Hlog level' k k' Hk Hk' Hle. rewrite Hk in Hlog. rewrite Hk'.
    apply Z.leb_le in Hlog. apply Z.leb_le. lia.
Qed.

Lemma stamped_names (mtime : string -> option Z) (files : list string)
    (stamped : list (string * Z)) :
  mapM (stamp mtime) files = Some stamped ->
  stamped.*1 = files /\ Forall (fun a => mtime a.1 = Some a.2) stamped.
Proof.
  intros Hs. apply mapM_Some_1 in Hs.
  induction Hs as [|f a files stamped Hfa Hs [IH1 IH2]]; [done|].
  unfold stamp in Hfa. destruct (mtime f) as [t|] eqn:Ht; [|done].
  injection Hfa as <-. rewrite fmap_cons, IH1.
  split; [done|]. by constructor.
Qed.

(** X12: [cleanupOldLogs] only ever unlinks files of the log directory
    whose names start with 'app-' and end with '.log'. *)
Theorem cleanupOldLogs_only_log_files (maxLogFiles : nat) (files : list string)
    (mtime : string -> option Z) :
  Forall (fun file => file ∈ files /\ isLogFile file = true)
         (cleanupOldLogs maxLogFiles (Some files) mtime).
Proof.
  unfold cleanupOldLogs.
  destruct (mapM _ _) as [stamped|] eqn:Hs; [|constructor].
  destruct (decide _); [|constructor].
  apply stamped_names in Hs as [Hnames _].
  apply Forall_forall. intros file Hin.
  assert (Hin' : file ∈ (sortBy (fun a b => b.2 - a.2) stamped).*1).
  { rewrite <- (take_drop maxLogFiles (sortBy _ stamped)), fmap_app.
    apply elem_of_app. by right. }
  rewrite sortBy_Permutation, Hnames in Hin'.
  by apply list_elem_of_filter in Hin' as [? ?].
Qed.

(** X13: when every [stat] succeeds, [cleanupOldLogs] keeps the
    [maxLogFiles] most recently modified log files and unlinks the rest:
    kept and unlinked files together are the log files of the directory,
    [min maxLogFiles n] of the [n] log files are kept, and no unlinked file
    is newer than a kept one. *)
Theorem cleanupOldLogs_keeps_newest (maxLogFiles : nat) (files : list string)
    (mtime : string -> option Z) :
  Forall (fun file => is_Some (mtime file))
         (filter (fun file => isLogFile file = true) files) ->
  keptLogs maxLogFiles files mtime ++ cleanupOldLogs maxLogFiles (Some files) mtime
    ≡ₚ filter (fun file => isLogFile file = true) files /\
  length (keptLogs maxLogFiles files mtime)
    = (maxLogFiles `min` length (filter (fun file => isLogFile file = true) files))%nat /\
  forall kept deleted tk td,
    kept ∈ keptLogs maxLogFiles files mtime ->
    deleted ∈ cleanupOldLogs maxLogFiles (Some files) mtime ->
    mtime kept = Some tk -> mtime deleted = Some td ->
    td <= tk.
Proof.
  intros Hstat. unfold keptLogs, cleanupOldLogs.
  set (logFiles := filter (fun file => isLogFile file = true) files) in *.
  destruct (mapM (stamp mtime) logFiles) as [stamped|] eqn:Hs.
  2: { apply mapM_None_1, Exists_exists in Hs as (f & Hf & Hnone).
       eapply Forall_forall in Hstat; [|exact Hf].
       unfold stamp in Hnone. destruct Hstat as [t Ht]. by rewrite Ht in Hnone. }
  apply stamped_names in Hs as [Hnames Htimes].
  set (sorted := sortBy (fun a b => b.2 - a.2) stamped).
  assert (Hperm : sorted ≡ₚ stamped) by apply sortBy_Permutation.
  assert (Hdel : (if decide (maxLogFiles < length sorted)%nat
                  then (drop maxLogFiles sorted).*1 else [])
                 = (drop maxLogFiles sorted).*1).
  { destruct (decide _); [done|]. rewrite drop_ge by lia. done. }
  rewrite Hdel. split; [|split].
  - rewrite <- fmap_app, take_drop, Hperm. by rewrite Hnames.
  - rewrite length_fmap, length_take, Hperm, <- Hnames, length_fmap. done.
  - intros kept deleted tk td Hk Hd Htk Htd.
    apply list_elem_of_fmap in Hk as (a & -> & Ha).
    apply list_elem_of_fmap in Hd as (b & -> & Hb).
    assert (Hsorted : StronglySorted (fun a b : string * Z => - a.2 <= - b.2) sorted).
    { apply (sortBy_sorted _ (fun a : string * Z => - a.2)). intros; lia. }
    rewrite <- (take_drop maxLogFiles sorted) in Hsorted.
    apply StronglySorted_app in Hsorted as (Hle & _ & _).
    specialize (Hle a b Ha Hb). simpl in Hle.
    assert (Hin : forall c, c ∈ sorted -> mtime c.1 = Some c.2).
    { intros c Hc. rewrite Hperm in Hc. by eapply Forall_forall in Htimes. }
    rewrite (Hin a) in Htk by (by eapply subseteq_take).
    rewrite (Hin b) in Htd by (by eapply subseteq_drop).
    simplify_eq. lia.
Qed.

End LoggerFacts.

Lemma shouldLog_respects_severity_witness :
  Logger.shouldLog String.eqb "info" "error" = true /\
  (Logger.shouldLog String.eqb "info" "warn" = true ->
   forall logLevel' n', Logger.levels !! logLevel' = Some n' -> 2 <= n' ->
     Logger.shouldLog String.eqb logLevel' "warn" = true) /\
  (Logger.shouldLog String.eqb "info" "warn" = true ->
   forall level' k k', Logger.levels !! "warn" = Some k ->
     Logger.levels !! level' = Some k' ->
     k' <= k -> Logger.shouldLog String.eqb "info" level' = true).
Proof.
  apply (shouldLog_respects_severity String.eqb "info" "warn" 2).
  vm_compute. reflexivity.
Defined.

Lemma cleanupOldLogs_keeps_newest_witness :
  Logger.keptLogs 2 LoggerSample.directory LoggerSample.mtimes
    ++ Logger.cleanupOldLogs 2 (Some LoggerSample.directory) LoggerSample.mtimes
    ≡ₚ filter (fun file => Logger.isLogFile file = true) LoggerSample.directory /\
  length (Logger.keptLogs 2 LoggerSample.directory LoggerSample.mtimes)
    = (2 `min` length (filter (fun file => Logger.isLogFile file = true)
                              LoggerSample.directory))%nat /\
  forall kept deleted tk td,
    kept ∈ Logger.keptLogs 2 LoggerSample.directory LoggerSample.mtimes ->
    deleted ∈ Logger.cleanupOldLogs 2 (Some LoggerSample.directory) LoggerSample.mtimes ->
    LoggerSample.mtimes kept = Some tk -> LoggerSample.mtimes deleted = Some td ->
    td <= tk.
Proof.
  apply (cleanupOldLogs_keeps_newest 2 LoggerSample.directory LoggerSample.mtimes).
  vm_compute. repeat constructor; by eexists.
Defined.

Example cleanupOldLogs_sample :
  Logger.cleanupOldLogs 2 (Some LoggerSample.directory) LoggerSample.mtimes
  = ["app-2024-01-01.log"].
Proof. vm_compute. reflexivity. Qed.

(** * Properties of the environment checks *)

Lemma append_cons (c : Ascii.ascii) (a q : string) :
  String c a +:+ q = String c (a +:+ q).
Proof. reflexivity. Qed.

Lemma prefix_spec (a b : string) :
  String.prefix a b = true <-> exists q, b = a +:+ q.
Proof.
  revert b. induction a as [|c a IH]; intros b.
  - destruct b; cbn; (split; [eauto | done]).
  - destruct b as [|d b]; cbn; [split; [done | by intros [q ?]]|].
    destruct (Ascii.ascii_dec c d) as [->|Hne].
    + rewrite IH. split; intros [q Hq]; exists q; rewrite append_cons in *;
        congruence.
    + split; [done|]. intros [q Hq]. rewrite append_cons in Hq. congruence.
Qed.

Lemma append_assoc (a b c : string) : (a +:+ b) +:+ c = a +:+ (b +:+ c).
Proof. induction a as [|x a IH]; [done | by rewrite !append_cons, IH]. Qed.

Lemma includes_unfold (needle hay : string) :
  includes needle hay
  = String.prefix needle hay ||
    match hay with
    | EmptyString => false
    | String _ hay' => includes needle hay'
    end.
Proof. by destruct hay. Qed.

Lemma includes_spec (needle hay : string) :
  includes needle hay = true <-> exists p q, hay = p +:+ needle +:+ q.
Proof.
  induction hay as [|c hay IH]; rewrite includes_unfold.
  - rewrite orb_false_r, prefix_spec. split.
    + intros [q Hq]. by exists EmptyString, q.
    + intros ([|? ?] & q & Hq); [by exists q | done].
  - rewrite orb_true_iff, prefix_spec, IH. split.
    + intros [[q Hq] | (p & q & Hq)].
      * by exists EmptyString, q.
      * exists (String c p), q. by rewrite append_cons, Hq.
    + intros ([|d p] & q & Hq).
      * left. by exists q.
      * right. rewrite append_cons in Hq. exists p, q. by simplify_eq.
Qed.

Lemma includes_trans (a b c : string) :
  includes a b = true -> includes b c = true -> includes a c = true.
Proof.
  rewrite !includes_spec. intros (p & q & ->) (p' & q' & ->).
  exists (p' +:+ p), (q +:+ q'). by rewrite !append_assoc.
Qed.

Lemma substring_length_le (n : nat) (s : string) :
  (String.length (String.substring 0 n s) <= n)%nat.
Proof.
  revert s. induction n as [|n IH]; intros [|c s]; simpl; try lia.
  specialize (IH s). lia.
Qed.

Lemma substring_all (n : nat) (s : string) :
  (String.length s <= n)%nat -> String.substring 0 n s = s.
Proof.
  revert s. induction n as [|n IH]; intros [|c s]; simpl; try done; try lia.
  intros Hlen. rewrite IH; [done | lia].
Qed.

Lemma append_length (a b : string) :
  String.length (a +:+ b) = (String.length a + String.length b)%nat.
Proof. induction a as [|c a IH]; [done | by rewrite append_cons; simpl; rewrite IH]. Qed.

Section EnvironmentFacts.

Import DiagnosticsEnv.

(** X14: a masked value shows at most the first 8 characters of the secret
    and is at most 11 characters long; a secret of 8 characters or fewer is
    shown in full, followed by '***'. *)
Theorem maskSensitive_shows_prefix_only (key value : string) :
  someIncluded ["SECRET"; "JWT"; "KEY"] key = true ->
  (String.length (maskSensitive key value) <= 11)%nat /\
  (forall value', String.substring 0 8 value' = String.substring 0 8 value ->
     maskSensitive key value' = maskSensitive key value) /\
  ((String.length value <= 8)%nat -> maskSensitive key value = value +:+ "***").
Proof.
  intros Hkey. unfold maskSensitive, masked. rewrite Hkey. split; [|split].
  - rewrite append_length. pose proof (substring_length_le 8 value). simpl. lia.
  - by intros value' ->.
  - intros Hlen. by rewrite substring_all.
Qed.

Lemma checkRequired_lists (env : gmap string string) (vars : list string)
    (report : EnvReport) :
  missing (foldl (checkRequired env) report vars)
    = missing report ++ filter (fun v => envVar env v = None) vars /\
  present (foldl (checkRequired env) report vars)
    = present report ++ filter (fun v => is_Some (envVar env v)) vars /\
  optional (foldl (checkRequired env) report vars) = optional report.
Proof.
  revert report. induction vars as [|var vars IH]; intros report; simpl.
  - by rewrite !app_nil_r.
  - destruct (IH (checkRequired env report var)) as (-> & -> & ->).
    rewrite !filter_cons. unfold checkRequired.
    destruct (envVar env var) as [value|] eqn:Hvar; simpl.
    + by rewrite <- !app_assoc.
    + by rewrite <- !app_assoc.
Qed.

Lemma checkRequired_required (env : gmap string string) (vars : list string)
    (report : EnvReport) (v : string) :
  required (foldl (checkRequired env) report vars) !! v
  = if decide (v ∈ vars)
    then match envVar env v with
         | Some value => Some (maskSensitive v value)
         | None => required report !! v
         end
    else required report !! v.
Proof.
  revert report. induction vars as [|var vars IH]; intros report; simpl.
  - done.
  - rewrite IH. clear IH.
    assert (Hstep : required (checkRequired env report var) !! v
                    = if decide (var = v)
                      then match envVar env v with
                           | Some value => Some (maskSensitive v value)
                           | None => required report !! v
                           end
                      else required report !! v).
    { unfold checkRequired. destruct (decide (var = v)) as [->|Hne].
      - destruct (envVar env v); simpl; [by rewrite lookup_insert_eq | done].
      - destruct (envVar env var); simpl; [by rewrite lookup_insert_ne | done]. }
    rewrite Hstep.
    destruct (decide (v ∈ vars)) as [Hin|Hnin].
    + destruct (decide (v ∈ var :: vars)) as [_|Hn];
        [|exfalso; apply Hn, elem_of_cons; by right].
      destruct (envVar env v); [done|]. by destruct (decide (var = v)).
    + destruct (decide (var = v)) as [->|Hne].
      * destruct (decide (v ∈ v :: vars)) as [_|Hn]; [done|].
        exfalso. apply Hn, elem_of_cons. by left.
      * destruct (decide (v ∈ var :: vars)) as [Hy|_]; [|done].
        apply elem_of_cons in Hy as [?|?]; by simplify_eq.
Qed.

Lemma checkOptional_lists (env : gmap string string) (vars : list string)
    (report : EnvReport) :
  missing (foldl (checkOptional env) report vars) = missing report /\
  present (foldl (checkOptional env) report vars)
    = present report ++ filter (fun v => is_Some (envVar env v)) vars /\
  required (foldl (checkOptional env) report vars) = required report.
Proof.
  revert report. induction vars as [|var vars IH]; intros report; simpl.
  - by rewrite !app_nil_r.
  - destruct (IH (checkOptional env report var)) as (-> & -> & ->).
    rewrite !filter_cons. unfold checkOptional.
    destruct (envVar env var) as [value|] eqn:Hvar; simpl.
    + by rewrite <- !app_assoc.
    + done.
Qed.

(** X15: [checkEnvironment] reports as missing exactly the required
    variables that are unset or empty, as present exactly the required and
    optional variables that are set, both in declaration order, and shows
    every required variable that is set through [maskSensitive]. *)
Theorem checkEnvironment_partitions (env : gmap string string) :
  missing (checkEnvironment env)
    = filter (fun v => envVar env v = None) requiredVars /\
  present (checkEnvironment env)
    = filter (fun v => is_Some (envVar env v)) (requiredVars ++ optionalVars) /\
  forall v, v ∈ requiredVars ->
    required (checkEnvironment env) !! v = maskSensitive v <$> envVar env v.
Proof.
  unfold checkEnvironment.
  destruct (checkOptional_lists env optionalVars
              (foldl (checkRequired env)
                 {| required := ∅; optional := ∅; missing := []; present := [] |}
                 requiredVars)) as (-> & -> & ->).
  destruct (checkRequired_lists env requiredVars
              {| required := ∅; optional := ∅; missing := []; present := [] |})
    as (-> & -> & _).
  split; [done|]. split; [by rewrite filter_app|].
  intros v Hv. rewrite checkRequired_required, decide_True by done.
  simpl. rewrite lookup_empty. by destruct (envVar env v).
Qed.

End EnvironmentFacts.

Lemma maskSensitive_shows_prefix_only_witness :
  (String.length (DiagnosticsEnv.maskSensitive "RC_CLIENT_SECRET" "abcdefghijklmnop")
     <= 11)%nat /\
  (forall value',
     String.substring 0 8 value' = String.substring 0 8 "abcdefghijklmnop" ->
     DiagnosticsEnv.maskSensitive "RC_CLIENT_SECRET" value'
     = DiagnosticsEnv.maskSensitive "RC_CLIENT_SECRET" "abcdefghijklmnop") /\
  ((String.length "abcdefghijklmnop" <= 8)%nat ->
   DiagnosticsEnv.maskSensitive "RC_CLIENT_SECRET" "abcdefghijklmnop"
   = "abcdefghijklmnop" +:+ "***").
Proof.
  apply (maskSensitive_shows_prefix_only "RC_CLIENT_SECRET" "abcdefghijklmnop").
  reflexivity.
Defined.

Lemma checkEnvironment_partitions_witness :
  DiagnosticsEnv.required (DiagnosticsEnv.checkEnvironment ConfigSample.env) !! "RC_JWT"
  = DiagnosticsEnv.maskSensitive "RC_JWT" <$> envVar ConfigSample.env "RC_JWT".
Proof.
  apply (checkEnvironment_partitions ConfigSample.env).
  apply list_elem_of_In. simpl. auto.
Defined.

(** * Properties of the configuration validator *)

Section ConfigFacts.

Import ConfigValidator.

Lemma validateRequired_fold (env : gmap string string) (vars : list string)
    (r : Results) :
  errors (foldl (validateRequired env) r vars)
    = errors r ++ map missingMessage (filter (fun name => envVar env name = None) vars) /\
  warnings (foldl (validateRequired env) r vars) = warnings r /\
  (valid (foldl (validateRequired env) r vars) = true
   <-> valid r = true /\ filter (fun name => envVar env name = None) vars = []).
Proof.
  revert r. induction vars as [|name vars IH]; intros r; simpl.
  - rewrite app_nil_r. tauto.
  - destruct (IH (validateRequired env r name)) as (-> & -> & ->).
    rewrite filter_cons. unfold validateRequired.
    destruct (envVar env name) as [value|] eqn:Hname; simpl.
    + done.
    + rewrite <- app_assoc. split; [done|]. split; [done|].
      split; [by intros [? _] | by intros [_ ?]].
Qed.

Lemma validateOptional_fold (env : gmap string string) (vars : list string)
    (r : Results) :
  errors (foldl (validateOptional env) r vars) = errors r /\
  warnings (foldl (validateOptional env) r vars) = warnings r /\
  valid (foldl (validateOptional env) r vars) = valid r /\
  forall key, key ∉ vars ->
    config (foldl (validateOptional env) r vars) !! key = config r !! key.
Proof.
  revert r. induction vars as [|name vars IH]; intros r; simpl; [done|].
  destruct (IH (validateOptional env r name)) as (He & Hw & Hv & Hcfg).
  assert (Hstep : errors (validateOptional env r name) = errors r /\
                  warnings (validateOptional env r name) = warnings r /\
                  valid (validateOptional env r name) = valid r /\
                  forall key, key <> name ->
                    config (validateOptional env r name) !! key = config r !! key).
  { unfold validateOptional. destruct (envVar env name); simpl; repeat split; auto.
    intros key Hne. by rewrite lookup_insert_ne. }
  destruct Hstep as (He' & Hw' & Hv' & Hc').
  rewrite He, Hw, Hv, He', Hw', Hv'. repeat split.
  intros key [Hne Hkey]%not_elem_of_cons. rewrite Hcfg by done. by apply Hc'.
Qed.

Lemma validateRequired_config (env : gmap string string) (vars : list string)
    (r : Results) (key : string) :
  config (foldl (validateRequired env) r vars) !! key
  = if decide (key ∈ vars)
    then match envVar env key with
         | Some value => Some (CString (maskSensitiveValue key value))
         | None => config r !! key
         end
    else config r !! key.
Proof.
  revert r. induction vars as [|name vars IH]; intros r; simpl; [done|].
  rewrite IH. clear IH.
  assert (Hstep : config (validateRequired env r name) !! key
                  = if decide (name = key)
                    then match envVar env key with
                         | Some value => Some (CString (maskSensitiveValue key value))
                         | None => config r !! key
                         end
                    else config r !! key).
  { unfold validateRequired. destruct (decide (name = key)) as [->|Hne].
    - destruct (envVar env key); simpl; [by rewrite lookup_insert_eq | done].
    - destruct (envVar env name); simpl; [by rewrite lookup_insert_ne | done]. }
  rewrite Hstep.
  destruct (decide (key ∈ vars)) as [Hin|Hnin].
  - destruct (decide (key ∈ name :: vars)) as [_|Hn];
      [|exfalso; apply Hn, elem_of_cons; by right].
    destruct (envVar env key); [done|]. by destruct (decide (name = key)).
  - destruct (decide (name = key)) as [->|Hne].
    + destruct (decide (key ∈ key :: vars)) as [_|Hn]; [done|].
      exfalso. apply Hn, elem_of_cons. by left.
    + destruct (decide (key ∈ name :: vars)) as [Hy|_]; [|done].
      apply elem_of_cons in Hy as [?|?]; by simplify_eq.
Qed.

Lemma validateSpecificConfigs_spec (env : gmap string string) (fs : FileSystem)
    (r : Results) :
  errors (validateSpecificConfigs env fs r)
    = errors r
      ++ match envVar env "RC_JWT" with
         | Some jwt =>
             if decide (length (split dot jwt) = 3%nat) then [] else [jwtMessage]
         | None => []
         end
      ++ match dirError fs (reportsDirOf env) with
         | Some msg => [reportsMessage (reportsDirOf env) msg]
         | None => []
         end /\
  (valid (validateSpecificConfigs env fs r) = true
   <-> valid r = true /\
       (forall jwt, envVar env "RC_JWT" = Some jwt -> length (split dot jwt) = 3%nat) /\
       dirError fs (reportsDirOf env) = None) /\
  forall key,
    key ∉ ["reportsDir"; "reportsDirWritable"; "logsDir"; "logsDirWritable"] ->
    config (validateSpecificConfigs env fs r) !! key = config r !! key.
Proof.
  unfold validateSpecificConfigs, checkLogsDir, checkReportsDir, checkJwt, checkServer.
  destruct (envVar env "RC_SERVER") as [server|];
    [destruct (bool_decide (server ∈ validServers))|];
    (destruct (envVar env "RC_JWT") as [jwt|];
       [destruct (decide (length (split dot jwt) = 3%nat))|]);
    destruct (dirError fs (reportsDirOf env)) as [msg|];
    destruct (dirError fs "./logs") as [msg'|]; simpl;
    rewrite ?app_nil_r, <- ?app_assoc; (split; [done|]);
    (split; [split; [intros ?; try done; repeat split; try done;
                     intros ? [= <-]; done
                    | intros (? & Hj & ?); try done; try (by specialize (Hj _ eq_refl))]|]);
    intros key Hkey;
    repeat (apply not_elem_of_cons in Hkey as [? Hkey]);
    rewrite ?lookup_insert_ne by done; done.
Qed.

End ConfigFacts.

Lemma split_length (sep : Ascii.ascii) (s : string) :
  length (split sep s) = S (occurrences sep s).
Proof.
  induction s as [|c s IH]; simpl; [done|].
  destruct (Ascii.eqb c sep); simpl; [by rewrite IH|].
  destruct (split sep s); simpl in *; [done | lia].
Qed.

Lemma all_set_iff (env : gmap string string) (names : list string) :
  Forall (fun name => is_Some (envVar env name)) names
  <-> filter (fun name => envVar env name = None) names = [].
Proof.
  induction names as [|name names IH]; [done|].
  rewrite Forall_cons, filter_cons, IH.
  destruct (envVar env name) as [v|] eqn:Hv.
  - rewrite decide_False by done. split; [by intros [_ ?] | by eauto].
  - rewrite decide_True by done. split; [by intros [[? ?] _] | done].
Qed.

Section ConfigClaims.

Import ConfigValidator.

Lemma validateEnvironment_spec (env : gmap string string) (fs : FileSystem) :
  errors (validateEnvironment env fs) = expectedErrors env fs /\
  (valid (validateEnvironment env fs) = true
   <-> filter (fun name => envVar env name = None) requiredVars = [] /\
       (forall jwt, envVar env "RC_JWT" = Some jwt -> length (split dot jwt) = 3%nat) /\
       dirError fs (reportsDirOf env) = None).
Proof.
  unfold validateEnvironment, expectedErrors.
  set (r0 := checkEnvFile fs _).
  assert (Hr0 : errors r0 = [] /\ valid r0 = true).
  { unfold r0, checkEnvFile. by destruct (envFileExists fs). }
  destruct Hr0 as [He0 Hv0].
  destruct (validateSpecificConfigs_spec env fs
              (foldl (validateOptional env)
                 (foldl (validateRequired env) r0 requiredVars) optionalVars))
    as (-> & -> & _).
  destruct (validateOptional_fold env optionalVars
              (foldl (validateRequired env) r0 requiredVars)) as (-> & _ & -> & _).
  destruct (validateRequired_fold env requiredVars r0) as (-> & _ & ->).
  rewrite He0, Hv0. simpl. split; [done|]. tauto.
Qed.

(** X16: the validation result is valid exactly when it lists no error, and
    its errors are, in this order: one per required variable that is unset
    or empty, one for a token that does not have three dot-separated parts,
    one for a reports directory that cannot be written.  A missing .env
    file, an unusual server URL and an unwritable logs directory never add
    an error. *)
Theorem validateEnvironment_valid_iff_no_errors (env : gmap string string)
    (fs : FileSystem) :
  errors (validateEnvironment env fs) = expectedErrors env fs /\
  (valid (validateEnvironment env fs) = true
   <-> errors (validateEnvironment env fs) = []).
Proof.
  destruct (validateEnvironment_spec env fs) as [Herr Hvalid].
  split; [done|]. rewrite Hvalid, Herr. unfold expectedErrors.
  destruct (envVar env "RC_JWT") as [jwt|];
    [destruct (decide (length (split dot jwt) = 3%nat))|];
    destruct (dirError fs (reportsDirOf env));
    destruct (filter _ requiredVars); simpl; split;
    try (intros (? & Hj & ?); try done; by specialize (Hj _ eq_refl));
    try done; intros _; repeat split; try done; by intros ? [= <-].
Qed.

(** X17: [validateAndThrow] returns exactly for an acceptable
    configuration: all five required variables set, a token with exactly two
    dots, a writable reports directory.  Otherwise it throws the
    [ConfigError] whose message lists every error, one per line; and
    [healthCheck] reports 'healthy' exactly when [validateAndThrow]
    returns. *)
Theorem validateAndThrow_accepts (env : gmap string string) (fs : FileSystem) :
  (acceptable env fs
   <-> validateAndThrow env fs = inr (validateEnvironment env fs)) /\
  (~ acceptable env fs
   <-> validateAndThrow env fs
       = inl ("Configuration validation failed:" +:+ nl
                +:+ String.concat nl (expectedErrors env fs))) /\
  (healthCheck env fs = "healthy" <-> acceptable env fs).
Proof.
  destruct (validateEnvironment_spec env fs) as [Herr Hvalid].
  assert (Hacc : acceptable env fs <-> valid (validateEnvironment env fs) = true).
  { rewrite Hvalid. unfold acceptable. rewrite all_set_iff.
    split; intros (Hreq & Hjwt & Hdir); (split; [done|]); (split; [|done]);
      intros jwt Hj; specialize (Hjwt _ Hj); rewrite split_length in *; lia. }
  unfold validateAndThrow, healthCheck. rewrite Herr, Hacc.
  destruct (valid (validateEnvironment env fs)); repeat split; try done.
Qed.

(** X18: the [config] of a validation result shows each of the three
    secrets, when set, as its first 8 characters followed by '***', never
    more. *)
Theorem validateEnvironment_masks_secrets (env : gmap string string)
    (fs : FileSystem) (name value : string) :
  name ∈ ["RC_CLIENT_SECRET"; "RC_JWT"; "GEMINI_API_KEY"] ->
  envVar env name = Some value ->
  config (validateEnvironment env fs) !! name = Some (CString (masked value)) /\
  (String.length (masked value) <= 11)%nat.
Proof.
  intros Hname Hvalue. split.
  2: { unfold masked. rewrite append_length.
       pose proof (substring_length_le 8 value). simpl. lia. }
  unfold validateEnvironment.
  destruct (validateSpecificConfigs_spec env fs
              (foldl (validateOptional env)
                 (foldl (validateRequired env)
                    (checkEnvFile fs {| valid := true; errors := []; warnings := [];
                                        config := ∅ |}) requiredVars) optionalVars))
    as (_ & _ & Hcfg).
  rewrite !elem_of_cons in Hname.
  destruct Hname as [-> | [-> | [-> | Hnil]]]; [..|by apply elem_of_nil in Hnil];
    (rewrite Hcfg by (rewrite !not_elem_of_cons; repeat split; try done;
                      apply not_elem_of_nil));
    (destruct (validateOptional_fold env optionalVars
                 (foldl (validateRequired env)
                    (checkEnvFile fs {| valid := true; errors := []; warnings := [];
                                        config := ∅ |}) requiredVars))
       as (_ & _ & _ & Hopt));
    (rewrite Hopt by (unfold optionalVars; rewrite !not_elem_of_cons;
                      repeat split; try done; apply not_elem_of_nil));
    rewrite validateRequired_config;
    (rewrite decide_True
       by (unfold requiredVars; rewrite !elem_of_cons;
           repeat ((left; reflexivity) || right)));
    rewrite Hvalue; reflexivity.
Qed.

(** X19: whatever the validator masks, the diagnostics report masks too,
    and in the same way: a key with 'CLIENT_SECRET', 'JWT' or 'API_KEY' in
    its name gets the same masked value from [maskSensitive] as from
    [maskSensitiveValue]. *)
Theorem diagnostics_masks_what_validator_masks (key value : string) :
  someIncluded ["CLIENT_SECRET"; "JWT"; "API_KEY"] key = true ->
  DiagnosticsEnv.maskSensitive key value = maskSensitiveValue key value /\
  maskSensitiveValue key value = masked value.
Proof.
  intros Hkey. unfold DiagnosticsEnv.maskSensitive, maskSensitiveValue.
  rewrite Hkey.
  assert (Hdiag : someIncluded ["SECRET"; "JWT"; "KEY"] key = true).
  { unfold someIncluded in *. simpl in *.
    rewrite !orb_false_r in *. apply orb_true_iff in Hkey as [H|H];
      [|apply orb_true_iff in H as [H|H]].
    - rewrite (includes_trans "SECRET" "CLIENT_SECRET" key); done.
    - rewrite H. by rewrite orb_true_r.
    - rewrite (includes_trans "KEY" "API_KEY" key); [|done..].
      by rewrite !orb_true_r. }
  by rewrite Hdiag.
Qed.

End ConfigClaims.

Lemma validateAndThrow_accepts_witness :
  ConfigValidator.validateAndThrow ConfigSample.env ConfigSample.fs
  = inr (ConfigValidator.validateEnvironment ConfigSample.env ConfigSample.fs).
Proof.
  apply (proj1 (validateAndThrow_accepts ConfigSample.env ConfigSample.fs)).
  split; [|split].
  - vm_compute. repeat constructor; by eexists.
  - intros jwt Hjwt. vm_compute in Hjwt. by injection Hjwt as <-.
  - reflexivity.
Defined.

Lemma validateEnvironment_masks_secrets_witness :
  ConfigValidator.config
    (ConfigValidator.validateEnvironment ConfigSample.env ConfigSample.fs)
    !! "RC_CLIENT_SECRET"
  = Some (ConfigValidator.CString (masked "s3cr3t-value-0123456789")) /\
  (String.length (masked "s3cr3t-value-0123456789") <= 11)%nat.
Proof.
  apply (validateEnvironment_masks_secrets ConfigSample.env ConfigSample.fs).
  - apply list_elem_of_In. simpl. auto.
  - vm_compute. reflexivity.
Defined.

Lemma diagnostics_masks_what_validator_masks_witness :
  DiagnosticsEnv.maskSensitive "GEMINI_API_KEY" "AIza-0123456789"
  = ConfigValidator.maskSensitiveValue "GEMINI_API_KEY" "AIza-0123456789" /\
  ConfigValidator.maskSensitiveValue "GEMINI_API_KEY" "AIza-0123456789"
  = masked "AIza-0123456789".
Proof.
  apply (diagnostics_masks_what_validator_masks "GEMINI_API_KEY" "AIza-0123456789").
  reflexivity.
Defined.

(** * Properties of the person cache and of the health status *)

Section PersonFacts.

Import Person.

Context {World : Type}.
Variable person_get : string -> World -> (JsError + PersonResponse) * World.

Lemma name_not_empty (a b : string) : a +:+ " " +:+ b <> EmptyString.
Proof. destruct a; [done|]. by rewrite append_cons. Qed.

Lemma getPersonName_hit (personId : string) (st : State World) (found : Found) :
  hit personId st = Some found ->
  getPersonName person_get personId st = (found, st).
Proof. unfold getPersonName, hit. by intros ->. Qed.

Lemma hit_name (personId name : string) (st : State World) :
  hit personId st = Some (Name name)
  <-> personCache st !! personId = Some name /\ name <> EmptyString.
Proof.
  unfold hit, cached.
  destruct (personCache st !! personId) as [n|].
  - destruct (decide (n = EmptyString)) as [->|Hne]; split.
    + done.
    + by intros [[= <-] ?].
    + by intros [= <-].
    + by intros [[= <-] _].
  - destruct (inherited personId); split; try done; by intros [? _].
Qed.

(** A cached name stays: no lookup replaces or drops it. *)
Lemma getPersonName_keeps (personId other name : string) (st : State World) :
  hit personId st = Some (Name name) ->
  hit personId (getPersonName person_get other st).2 = Some (Name name).
Proof.
  intros Hhit. unfold getPersonName.
  destruct (hit other st) as [found|] eqn:Hother; [done|].
  destruct (person_get (personUrl other) (world st)) as [out w].
  destruct out as [|resp]; [done|].
  destruct (person_json resp) as [|json]; [done|]. simpl.
  apply hit_name in Hhit as [Hhit Hne]. apply hit_name. split; [|done].
  cbn [personCache]. rewrite lookup_insert_ne; [done|].
  intros <-. unfold hit, cached in Hother. rewrite Hhit in Hother.
  by rewrite decide_False in Hother.
Qed.

Lemma lookups_keep (personIds : list string) (personId name : string)
    (st : State World) :
  hit personId st = Some (Name name) ->
  hit personId (lookups person_get personIds st) = Some (Name name).
Proof.
  unfold lookups. revert st.
  induction personIds as [|other personIds IH]; intros st Hhit; [done|].
  simpl. by apply IH, getPersonName_keeps.
Qed.

(** X20: a name that [getPersonName] has put in the cache is served from
    the cache ever after: whatever lookups come in between, the next lookup
    of that person returns the same name and makes no request.  A name that
    is returned without being in the cache is the fallback 'User (id)' of a
    lookup whose request failed, which leaves the cache as it was, so that
    the failure is not remembered.  The one lookup that returns no name at
    all is that of an id that names a member of [Object.prototype] and is not
    in the cache: it returns that member and asks the service nothing. *)
Theorem getPersonName_caches (personId : string) (personIds : list string)
    (st : State World) :
  let first := getPersonName person_get personId st in
  let later := lookups person_get personIds first.2 in
  (forall name,
     first.1 = Name name ->
     personCache first.2 !! personId = Some name ->
     getPersonName person_get personId later = (Name name, later)) /\
  (forall name,
     first.1 = Name name ->
     personCache first.2 !! personId <> Some name ->
     name = fallbackName personId /\
     personCache first.2 = personCache st /\
     requests first.2 = requests st ++ [personUrl personId]) /\
  (forall key,
     first.1 = Member key ->
     key = personId /\ inherited personId = true /\
     personCache st !! personId = None /\ first.2 = st).
Proof.
  cbv zeta.
  assert (Hfirst :
    (exists name,
       (getPersonName person_get personId st).1 = Name name /\
       hit personId (getPersonName person_get personId st).2 = Some (Name name)) \/
    ((getPersonName person_get personId st).1 = Name (fallbackName personId) /\
     personCache (getPersonName person_get personId st).2 = personCache st /\
     requests (getPersonName person_get personId st).2
       = requests st ++ [personUrl personId] /\
     hit personId st = None) \/
    ((getPersonName person_get personId st).1 = Member personId /\
     inherited personId = true /\
     personCache st !! personId = None /\
     (getPersonName person_get personId st).2 = st)).
  { unfold getPersonName.
    destruct (hit personId st) as [found|] eqn:Hhit.
    - destruct found as [name|key].
      + left. by exists name.
      + right. right. unfold hit, cached in Hhit.
        destruct (personCache st !! personId) as [n|].
        * by destruct (decide (n = EmptyString)).
        * destruct (inherited personId); [|done]. by injection Hhit as <-.
    - destruct (person_get (personUrl personId) (world st)) as [out w].
      destruct out as [|resp]; [by right; left|].
      destruct (person_json resp) as [|json]; [by right; left|].
      left. eexists. split; [done|]. apply hit_name. simpl.
      rewrite lookup_insert_eq. split; [done | apply name_not_empty]. }
  split; [|split].
  - intros name Hname Hcached.
    destruct Hfirst as [(name0 & Hname0 & Hhit) | [(Hfb & Hcache & _ & Hmiss) | (Hm & _)]].
    + rewrite Hname in Hname0. injection Hname0 as <-.
      apply getPersonName_hit. by apply lookups_keep.
    + rewrite Hname in Hfb. injection Hfb as ->.
      rewrite Hcache in Hcached. unfold hit, cached in Hmiss.
      rewrite Hcached in Hmiss.
      destruct (decide (fallbackName personId = EmptyString)) as [Heq|]; [|done].
      unfold fallbackName in Heq. done.
    + by rewrite Hname in Hm.
  - intros name Hname Hnot.
    destruct Hfirst as [(name0 & Hname0 & Hhit) | [(Hfb & Hcache & Hreq & _) | (Hm & _)]].
    + rewrite Hname in Hname0. injection Hname0 as <-.
      by apply hit_name in Hhit as [Hhit _].
    + rewrite Hname in Hfb. by injection Hfb as ->.
    + by rewrite Hname in Hm.
  - intros key Hkey.
    destruct Hfirst as [(name0 & Hname0 & _) | [(Hfb & _) | (Hm & Hinh & Hnone & Hst)]].
    + by rewrite Hkey in Hname0.
    + by rewrite Hkey in Hfb.
    + rewrite Hkey in Hm. by injection Hm as ->.
Qed.

End PersonFacts.

Lemma getPersonName_caches_witness :
  (Person.getPersonName Person.sampleGet "42" (Person.mkState 0%nat ∅ [])).1
  = Person.Name "Ada Lovelace" /\
  Person.getPersonName Person.sampleGet "42"
    (Person.lookups Person.sampleGet ["7"; "42"; "8"]
       (Person.getPersonName Person.sampleGet "42" (Person.mkState 0%nat ∅ [])).2)
  = (Person.Name "Ada Lovelace",
     Person.lookups Person.sampleGet ["7"; "42"; "8"]
       (Person.getPersonName Person.sampleGet "42" (Person.mkState 0%nat ∅ [])).2).
Proof.
  split; [vm_compute; reflexivity|].
  apply (proj1 (getPersonName_caches Person.sampleGet "42" ["7"; "42"; "8"]
                  (Person.mkState 0%nat ∅ []))).
  - vm_compute. reflexivity.
  - vm_compute. reflexivity.
Defined.

Section HealthFacts.

Import Health.

Context {Number : Type}.
Variable gt : Number -> Z -> bool.

(** X21: whatever memory and error rate are, the health status of a
    process in whose environment a required variable is unset or empty is
    'unhealthy', and its issues name the missing variables; and a status of
    'healthy' means that there is no issue and no warning: every required
    variable is set and neither './reports' nor './logs' is reported as
    missing or read-only. *)
Theorem missing_variable_makes_unhealthy (memoryUsagePercent errorRate : Number)
    (errorRateText : string) (filesystem : list DirCheck)
    (env : gmap string string) :
  let health := getHealthStatus gt memoryUsagePercent errorRate errorRateText
                  filesystem (DiagnosticsEnv.checkEnvironment env) in
  ((exists name, name ∈ requiredVars /\ envVar env name = None) ->
   status health = "unhealthy" /\
   ("Missing required environment variables: "
      +:+ String.concat ", " (filter (fun v => envVar env v = None) requiredVars))
     ∈ issues health) /\
  (status health = "healthy" ->
   issues health = [] /\ warnings health = [] /\
   Forall (fun name => is_Some (envVar env name)) requiredVars /\
   Forall (fun dir => critical dir = false) filesystem).
Proof.
  cbv zeta. destruct (checkEnvironment_partitions env) as (Hmissing & _ & _).
  unfold getHealthStatus. rewrite Hmissing. simpl. split.
  - intros (name & Hin & Hnone).
    assert (Hne : (0 < length (filter (fun v => envVar env v = None) requiredVars))%nat).
    { assert (name ∈ filter (fun v => envVar env v = None) requiredVars) as Hf
        by (by apply list_elem_of_filter).
      destruct (filter _ requiredVars); [by apply elem_of_nil in Hf | simpl; lia]. }
    rewrite (decide_True (P := (0 < length (filter _ requiredVars))%nat)) by done.
    split.
    + rewrite decide_True; [done|]. rewrite !length_app. simpl. lia.
    + rewrite !elem_of_app. right. right. left. apply list_elem_of_singleton. done.
  - destruct (decide (0 < length (_ ++ _ ++ _ ++ _))%nat) as [|Hi]; [done|].
    destruct (decide (0 < length (_ ++ _))%nat) as [|Hw]; [done|].
    intros _.
    apply Nat.nlt_ge, Nat.le_0_r, nil_length_inv in Hi.
    apply Nat.nlt_ge, Nat.le_0_r, nil_length_inv in Hw.
    split; [done|]. split; [done|].
    apply app_eq_nil in Hi as [_ Hi]. apply app_eq_nil in Hi as [_ Hi].
    apply app_eq_nil in Hi as [Henv Hdir].
    split.
    + apply all_set_iff.
      destruct (decide (0 < length (filter _ requiredVars))%nat) as [|Hn]; [done|].
      by apply Nat.nlt_ge, Nat.le_0_r, nil_length_inv in Hn.
    + destruct (decide (0 < length (filter _ filesystem))%nat) as [|Hn]; [done|].
      apply Nat.nlt_ge, Nat.le_0_r, nil_length_inv in Hn.
      apply Forall_forall. intros dir Hdirin.
      destruct (critical dir) eqn:Hc; [|done].
      assert (dir ∈ filter (fun dir => critical dir = true) filesystem) as Hf
        by (by apply list_elem_of_filter).
      rewrite Hn in Hf. by apply elem_of_nil in Hf.
Qed.

End HealthFacts.

Lemma missing_variable_makes_unhealthy_witness :
  Health.status
    (Health.getHealthStatus Z.gtb 40 0 "0%" []
       (DiagnosticsEnv.checkEnvironment ConfigSample.env)) = "healthy" /\
  Health.status
    (Health.getHealthStatus Z.gtb 40 0 "0%" []
       (DiagnosticsEnv.checkEnvironment (delete "RC_JWT" ConfigSample.env)))
  = "unhealthy".
Proof.
  split; [vm_compute; reflexivity|].
  apply (proj1 (missing_variable_makes_unhealthy Z.gtb 40 0 "0%" []
                  (delete "RC_JWT" ConfigSample.env))).
  exists "RC_JWT". split; [apply list_elem_of_In; simpl; auto | vm_compute; reflexivity].
Defined.

(** * The page-limit warning *)

Section WarningFacts.

Context {World : Type}.
Variable platform_get : string -> Query -> World -> (JsError + Response) * World.

Lemma failed_call_no_records (c : Call) (error : JsError) :
  callFailure c = Some error -> callRecords c = [].
Proof.
  unfold callFailure, callRecords, callBody.
  destruct (call_outcome c) as [|resp]; [done|]. by destruct (json resp).
Qed.

Lemma continuing_has_records (dateFrom : Date) (c : Call) :
  continuing dateFrom c -> callRecords c <> [].
Proof.
  intros (body & Hbody & Hne & _). unfold callRecords. by rewrite Hbody.
Qed.

(** X23: the page-limit warning is logged exactly when the fetch made 20
    page requests and the last of them delivered records: also when that
    twentieth page closed the window, and not when it was empty or
    failed. *)
Theorem page_limit_warning_iff (w : World) (chatId : string) (from to : Z)
    (probe : Call) (reqs : list Call) :
  calls (fetchChatMessagesEnhanced platform_get chatId (Some from) (Some to)
           (start w)).2 = probe :: reqs ->
  (warnings (fetchChatMessagesEnhanced platform_get chatId (Some from) (Some to)
               (start w)).2 <> []
   <-> length reqs = 20%nat /\ exists c, last reqs = Some c /\ callRecords c <> []).
Proof.
  destruct (fetchChatMessagesEnhanced _ _ _ _ _) as [r e'] eqn:Hrun. simpl.
  intros Hcalls.
  apply fetchChatMessagesEnhanced_inv in Hrun as (probe0 & _ & _ & Hrun).
  destruct Hrun as [(thrown & _ & Hc & Hw & _)
                   | (endpoint & e1 & pr & e2 & _ & Hc1 & Hw1 & Hp & Hc & Hr)].
  { rewrite Hc in Hcalls. simpl in Hcalls. injection Hcalls as _ <-.
    rewrite Hw. simpl. split; [done | by intros [? _]]. }
  apply paginate_trace in Hp as (pre & last0 & Hc2 & Hw2 & _ & Hcont & Hcases).
  assert (Hreqs : reqs = pre ++ last0).
  { rewrite Hc, Hc2, Hc1 in Hcalls. simpl in Hcalls. by injection Hcalls. }
  assert (Hw0 : warnings e2 = []) by (by rewrite Hw2, Hw1).
  subst reqs.
  destruct Hcases as [(-> & Hlen & ->) | (c & -> & Hlen & Hc0)].
  - destruct Hr as [_ ->]. rewrite Hw0, app_nil_r. simpl.
    unfold pageLimitWarnings. rewrite decide_True by (rewrite Hlen; done).
    split; [|done]. intros _. split; [done|].
    destruct pre as [|c0 pre0 _] using rev_ind; [done|].
    exists c0. rewrite last_snoc. split; [done|].
    apply (continuing_has_records (Some from)).
    apply Forall_app in Hcont as [_ Hcont].
    by apply (Forall_singleton (continuing (Some from))) in Hcont.
  - rewrite last_snoc, length_app. simpl.
    destruct Hc0 as [(error & Hf & ->) | [(_ & Hnil & ->) | (_ & Hne & ->)]].
    + destruct Hr as [_ ->]. rewrite Hw0.
      split; [done|]. intros (_ & c' & [= <-] & Hrec).
      by rewrite (failed_call_no_records _ _ Hf) in Hrec.
    + destruct Hr as [_ ->]. rewrite Hw0. simpl.
      unfold pageLimitWarnings, maxPages in *. rewrite decide_False by lia.
      split; [done|]. by intros (_ & c' & [= <-] & Hrec).
    + destruct Hr as [_ ->]. rewrite Hw0. simpl.
      unfold pageLimitWarnings, maxPages in *.
      destruct (decide (20 <= S (length pre))%nat) as [Hge|Hlt].
      * split; [|done]. intros _. split; [lia | eauto].
      * split; [done|]. intros [Hl _]. lia.
Qed.

End WarningFacts.

Lemma page_limit_warning_iff_witness :
  warnings (fetchChatMessagesEnhanced Sample.scripted Sample.chat (Some 10) (Some 20)
              (start Sample.feed)).2 <> []
  <-> length [Sample.firstCall; Sample.secondCall] = 20%nat /\
      exists c, last [Sample.firstCall; Sample.secondCall] = Some c /\
                callRecords c <> [].
Proof.
  apply (page_limit_warning_iff Sample.scripted Sample.feed Sample.chat 10 20
           Sample.probeCall).
  vm_compute. reflexivity.
Defined.
